(** * Timetable enumeration and ranking: a shallow embedding

    The development embeds the timetable functions of
    [streamlit_app_advanced.py] (the helpers [times_overlap],
    [has_conflict], [has_unique_classes], [has_free_days],
    [get_unique_time_slots] and the generation part of
    [timetable_creator]) and states the properties of the
    enumeration and ranking engine over them.

    Python sets are [gset]s, dictionaries with a fixed set of keys are
    records, the Streamlit session state is a record threaded through
    the run, and Python integers are [Z]. *)

From stdpp Require Import base decidable list sorting gmap strings.
From Stdlib Require Import ZArith Lia Ascii.

Local Open Scope Z_scope.
#[local] Set Warnings "-clear-no-such-hyp".

(** * Data model *)

(** A [datetime.time] as produced by [parse_time]
    ([datetime.strptime(s, "%H:%M").time()]): hour and minute; seconds and
    microseconds are always zero and are left out. *)
Record time := Time { hour : nat; minute : nat }.

#[global] Instance time_eq_dec : EqDecision time.
Proof. solve_decision. Defined.

#[global] Instance time_countable : Countable time.
Proof.
  refine (inj_countable' (fun t => (hour t, minute t))
                         (fun p => Time p.1 p.2) _).
  by intros [].
Defined.

(** One entry of a class's ["schedule"] list, after parsing. *)
Record session := Session {
  day : string;
  start_time : time;
  end_time : time
}.

(** A registered class (one section of a course): the keys the timetable
    functions read.  The other keys are passed through untouched. *)
Record class := Class {
  name : string;
  group : string;
  schedule : list session
}.

#[global] Instance session_eq_dec : EqDecision session.
Proof. solve_decision. Defined.

#[global] Instance class_eq_dec : EqDecision class.
Proof. solve_decision. Defined.

(** * Comparing times *)

Module TimeOrder.

(** [t1 < t2] on [datetime.time]: lexicographic on (hour, minute). *)
Definition ltb (t1 t2 : time) : bool :=
  (hour t1 <? hour t2)%nat
  || ((hour t1 =? hour t2)%nat && (minute t1 <? minute t2)%nat).

(** Python's [max(a, b)]: the first argument unless the second is
    strictly greater. *)
Definition max (a b : time) : time := if ltb a b then b else a.

(** Python's [min(a, b)]: the first argument unless the second is
    strictly smaller. *)
Definition min (a b : time) : time := if ltb b a then b else a.

(** The order as a proposition, for statements. *)
Definition lt (t1 t2 : time) : Prop :=
  (hour t1 < hour t2)%nat ∨ (hour t1 = hour t2 ∧ (minute t1 < minute t2)%nat).

Definition le (t1 t2 : time) : Prop := lt t1 t2 ∨ t1 = t2.

End TimeOrder.

(** * Conflict detection *)

(** [times_overlap(start1, end1, start2, end2)]. *)
Definition times_overlap (start1 end1 start2 end2 : time) : bool :=
  TimeOrder.ltb (TimeOrder.max start1 start2) (TimeOrder.min end1 end2).

(** The test [has_conflict] applies to a pair of sessions: the two nested
    [if]s of its loop body. *)
Definition sessions_overlap (session1 session2 : session) : bool :=
  bool_decide (day session1 = day session2)
  && times_overlap (start_time session1) (end_time session1)
                   (start_time session2) (end_time session2).

(** [has_conflict(class1, class2)]: the nested loops return [True] at the
    first overlapping pair of sessions and [False] when there is none. *)
Definition has_conflict (class1 class2 : class) : bool :=
  existsb (fun session1 => existsb (sessions_overlap session1) (schedule class2))
          (schedule class1).

(** * Filters on a combination *)

(** [has_unique_classes(combination)]: compares the number of names with
    the size of the set of names. *)
Definition has_unique_classes (combination : list class) : bool :=
  let class_names := map name combination in
  bool_decide (length class_names = size (list_to_set class_names : gset string)).

(** [has_free_days(combination, free_days)]: no free day is among the days
    on which some class of the combination has a session. *)
Definition has_free_days (combination : list class) (free_days : list string) : bool :=
  let scheduled_days : gset string :=
    list_to_set (flat_map (fun cls => map day (schedule cls)) combination) in
  forallb (fun d => bool_decide (d ∉ scheduled_days)) free_days.

(** * Sorting by a key *)

(** Python's [sorted] and [list.sort] are stable.  [stable_sort before]
    is the stable sort in which [before y x] says that the key of [y]
    comes strictly before the key of [x] in the requested direction: an
    element is inserted behind the elements that come strictly before it
    and in front of everything else, which it preceded in the input. *)
Section StableSort.
Context {A : Type} (before : A → A → bool).

Fixpoint stable_insert (x : A) (l : list A) : list A :=
  match l with
  | [] => [x]
  | y :: l' => if before y x then y :: stable_insert x l' else x :: y :: l'
  end.

Fixpoint stable_sort (l : list A) : list A :=
  match l with
  | [] => []
  | x :: l' => stable_insert x (stable_sort l')
  end.
End StableSort.

(** * Time slots of the grid *)

(** [get_unique_time_slots(classes)]: the set of (start, end) pairs of all
    sessions, sorted by start time.  The iteration order of a Python set
    is not specified; [elements] stands for it, and only properties that
    hold for every order are stated below. *)
Definition get_unique_time_slots (classes : list class) : list (time * time) :=
  let time_slots : gset (time * time) :=
    foldl (fun acc cls =>
             foldl (fun acc' s => acc' ∪ {[ (start_time s, end_time s) ]})
                   acc (schedule cls))
          ∅ classes in
  stable_sort (fun y x => TimeOrder.ltb y.1 x.1) (elements time_slots).

(** * Enumeration and scoring *)

(** [itertools.combinations(pool, r)]: the [r]-element selections of
    [pool], kept in pool order, listed in lexicographic order of the
    positions chosen. *)
Fixpoint combinations {A : Type} (pool : list A) (r : nat) : list (list A) :=
  match pool with
  | [] => match r with O => [[]] | S _ => [] end
  | x :: rest =>
      match r with
      | O => [[]]
      | S r' => map (cons x) (combinations rest r') ++ combinations rest r
      end
  end.

(** [range(max_classes, min_classes - 1, -1)] with [min_classes = 1]. *)
Fixpoint range_down (max_classes : nat) : list nat :=
  match max_classes with
  | O => []
  | S m => S m :: range_down m
  end.

(** One element of [all_combinations_with_score]: the tuple
    [(score, num_classes, combo, has_all_mandatory, has_free_days)], with
    the names the browsing code gives to its components. *)
Record scored_option := ScoredOption {
  score : Z;
  num_classes : nat;
  combo : list class;
  has_all_mandatory : bool;
  respects_free_days : bool
}.

(** The flag [has_time_conflict] after the loop over
    [combinations(combo, 2)]: some pair of the combination conflicts.
    (The loop also collects text for each conflicting pair; the text is
    not used afterwards.) *)
Definition has_time_conflict (combo : list class) : bool :=
  existsb (fun pair => match pair with
                       | [cls1; cls2] => has_conflict cls1 cls2
                       | _ => false
                       end)
          (combinations combo 2).

(** [all(any(cls["name"] == m for cls in combo) for m in mandatory_classes)]. *)
Definition includes_all_mandatory (combo : list class) (mandatory_classes : list string) : bool :=
  forallb (fun mandatory_class =>
             existsb (fun cls => bool_decide (name cls = mandatory_class)) combo)
          mandatory_classes.

(** [sum(1 for cls in combo if cls["name"] in mandatory_classes)]. *)
Definition mandatory_count (combo : list class) (mandatory_classes : list string) : nat :=
  length (filter (fun cls => name cls ∈ mandatory_classes) combo).

(** The priority score computed for an accepted combination. *)
Definition priority_score (free_days mandatory_classes : list string)
    (num_classes : nat) (combo : list class) : Z :=
  let score := 0 in
  let score := score + Z.of_nat num_classes * 1000 in
  let score := if has_free_days combo free_days then score + 500 else score in
  let score := score + Z.of_nat (mandatory_count combo mandatory_classes) * 200 in
  let score := if includes_all_mandatory combo mandatory_classes
               then score + 300 else score in
  score.

(** The body of the loop over [class_combinations]: a combination with a
    time conflict or with a repeated class name is skipped ([continue]),
    any other is appended with its score. *)
Definition consider (free_days mandatory_classes : list string)
    (num_classes : nat) (combo : list class) : option scored_option :=
  if has_time_conflict combo then None
  else if negb (has_unique_classes combo) then None
  else Some {| score := priority_score free_days mandatory_classes num_classes combo;
               num_classes := num_classes;
               combo := combo;
               has_all_mandatory := includes_all_mandatory combo mandatory_classes;
               respects_free_days := has_free_days combo free_days |}.

(** The list [all_combinations_with_score] when the loops end.  The source
    writes the bound on the number of classes as the literal [6]
    ([max_classes = min(6, len(filtered_classes))]); it is the parameter
    [max_size] here and [timetable_creator] below passes
    [max_schedule_size]. *)
Definition all_combinations_with_score (max_size : nat)
    (free_days mandatory_classes : list string)
    (filtered_classes : list class) : list scored_option :=
  let max_classes := Nat.min max_size (length filtered_classes) in
  flat_map (fun num_classes =>
              omap (consider free_days mandatory_classes num_classes)
                   (combinations filtered_classes num_classes))
           (range_down max_classes).

Definition max_schedule_size : nat := 6.

(** [all_combinations_with_score.sort(key=lambda x: x[0], reverse=True)]:
    a stable sort, highest score first. *)
Definition sort_by_score (options : list scored_option) : list scored_option :=
  stable_sort (fun y x => score x <? score y) options.

(** * The session state and a run of the generator *)

(** The two keys of [st.session_state] the generator writes; [None] is an
    absent key. *)
Record session_state := SessionState {
  all_schedule_options : option (list scored_option);
  current_schedule_index : option nat
}.

(** What a run tells the user first. *)
Inductive notice :=
  | AddClassesFirst
  | NoClassesFound
  | NotRequested
  | SelectAtLeastOneClass
  | NoValidSchedules
  | FoundOptions (count : nat).

(** The classes the enumeration runs on: those whose name was selected,
    or all of them when nothing was selected. *)
Definition filtered_classes (mandatory_classes : list string)
    (parsed_classes : list class) : list class :=
  match mandatory_classes with
  | [] => parsed_classes
  | _ :: _ => filter (fun cls => name cls ∈ mandatory_classes) parsed_classes
  end.

(** The branch under [if generate_button:], for a bound [max_size].  No
    step of it can raise in this model (every key read is a field), so
    the [except] clause is never entered. *)
Definition generate (max_size : nat) (free_days mandatory_classes : list string)
    (parsed_classes : list class) (st : session_state) : notice * session_state :=
  let filtered := filtered_classes mandatory_classes parsed_classes in
  match filtered with
  | [] => (SelectAtLeastOneClass, st)
  | _ :: _ =>
      let options :=
        all_combinations_with_score max_size free_days mandatory_classes filtered in
      match options with
      | [] => (NoValidSchedules, st)
      | _ :: _ =>
          let sorted := sort_by_score options in
          (FoundOptions (length sorted),
           {| all_schedule_options := Some sorted;
              current_schedule_index := Some O |})
      end
  end.

(** [timetable_creator()], up to the point where the options are stored:
    [id] is the session's id, [classes] what [get_classes_from_db(id)]
    returns (with the times already parsed), the two selections are the
    values of the multiselect widgets and [generate_button] tells whether
    the button was pressed in this run.  The test [if id:] fails for an
    absent id and for the empty string. *)
Definition timetable_creator (id : option string) (classes : list class)
    (mandatory_classes free_days : list string) (generate_button : bool)
    (st : session_state) : notice * session_state :=
  match id with
  | Some (String _ _) =>
      match classes with
      | [] => (NoClassesFound, st)
      | _ :: _ =>
          if generate_button
          then generate max_schedule_size free_days mandatory_classes classes st
          else (NotRequested, st)
      end
  | _ => (AddClassesFirst, st)
  end.

(** The option shown by the browsing part of the page: present when the
    key ["all_schedule_options"] holds a non-empty list, and then the
    entry at [current_schedule_index] (0 when that key is absent). *)
Definition current_option (st : session_state) : option scored_option :=
  match all_schedule_options st with
  | Some (o :: all_combos) =>
      (o :: all_combos) !! default O (current_schedule_index st)
  | _ => None
  end.

(** * The scoring rule as the specification words it *)

Module Spec.

(** The meetings of a combination that fall on a given day. *)
Definition meetings_on (d : string) (c : list class) : list session :=
  filter (fun s => day s = d) (c ≫= schedule).

(** Every free day has zero meetings across [c]. *)
Definition keeps_free (free_days : list string) (c : list class) : Prop :=
  Forall (fun d => length (meetings_on d c) = O) free_days.

(** Every mandatory course appears in [c]. *)
Definition covers (mandatory_courses : list string) (c : list class) : Prop :=
  Forall (fun m => Exists (fun s => name s = m) c) mandatory_courses.

(** The number of sections of [c] whose course is mandatory. *)
Definition mandatory_in (mandatory_courses : list string) (c : list class) : nat :=
  sum_list (map (fun s => if decide (name s ∈ mandatory_courses) then 1%nat else O) c).

Definition expected_score (free_days mandatory_courses : list string) (c : list class) : Z :=
  Z.of_nat (length c) * 1000
  + (if decide (keeps_free free_days c) then 500 else 0)
  + Z.of_nat (mandatory_in mandatory_courses c) * 200
  + (if decide (covers mandatory_courses c) then 300 else 0).

(** A valid combination drawn from a pool: a selection of the pool, kept
    in pool order, in which no two sections conflict and no course name
    occurs twice. *)
Definition conflict_free (c : list class) : Prop :=
  ∀ s1 s2, [s1; s2] `sublist_of` c → has_conflict s1 s2 = false.

Definition valid (c : list class) : Prop :=
  conflict_free c ∧ NoDup (map name c).

(** The order of a Result Set: higher score first and, at equal score,
    the larger combination first. *)
Definition ranks_before (a b : scored_option) : Prop :=
  (score b < score a)%Z
  ∨ (score b = score a ∧ (num_classes b ≤ num_classes a)%nat).

(** The times that lie in the half-open interval of a session. *)
Definition during (t : time) (s : session) : Prop :=
  TimeOrder.le (start_time s) t ∧ TimeOrder.lt t (end_time s).

End Spec.

(** * The three-section pool of the completeness example *)

Module Sample.

Definition at_time (h m : nat) : time := {| hour := h; minute := m |}.

Definition M1 : class :=
  {| name := "CS101"; group := "A";
     schedule := [ {| day := "Monday"; start_time := at_time 9 0; end_time := at_time 10 0 |} ] |}.

Definition M2 : class :=
  {| name := "CS101"; group := "B";
     schedule := [ {| day := "Monday"; start_time := at_time 9 30; end_time := at_time 10 30 |} ] |}.

Definition M3 : class :=
  {| name := "CS102"; group := "A";
     schedule := [ {| day := "Tuesday"; start_time := at_time 9 0; end_time := at_time 10 0 |} ] |}.

Definition pool : list class := [M1; M2; M3].

Definition fresh : session_state :=
  {| all_schedule_options := None; current_schedule_index := None |}.

End Sample.

(** * Browsing the stored options *)

(** The five controls above the displayed schedule: the buttons Previous,
    Next, First and Last, and the number field, whose value is the
    position counted from 1. *)
Inductive navigation :=
  | Previous
  | Next
  | GoTo (entered : nat)
  | First
  | Last.

(** [st.session_state["current_schedule_index"] = i]. *)
Definition set_index (i : nat) (st : session_state) : session_state :=
  {| all_schedule_options := all_schedule_options st;
     current_schedule_index := Some i |}.

(** What a control does to the session.  The controls exist only while a
    non-empty list is stored; Previous is disabled at index 0 and Next at
    the last index, and the number field writes only a changed index. *)
Definition navigate (control : navigation) (st : session_state) : session_state :=
  match all_schedule_options st with
  | Some (o :: rest) =>
      let all_combos := o :: rest in
      let current_idx := default O (current_schedule_index st) in
      match control with
      | Previous =>
          if (current_idx =? 0)%nat then st
          else set_index (Nat.max 0 (current_idx - 1)) st
      | Next =>
          if (length all_combos - 1 <=? current_idx)%nat then st
          else set_index (Nat.min (length all_combos - 1) (current_idx + 1)) st
      | GoTo entered =>
          let new_idx := (entered - 1)%nat in
          if (new_idx =? current_idx)%nat then st else set_index new_idx st
      | First => set_index 0 st
      | Last => set_index (length all_combos - 1) st
      end
  | _ => st
  end.

(** The number field is created with [min_value=1] and
    [max_value=len(all_combos)]. *)
Definition offered (control : navigation) (st : session_state) : Prop :=
  match control with
  | GoTo entered =>
      (1 ≤ entered ≤ length (default [] (all_schedule_options st)))%nat
  | _ => True
  end.

(** The sessions that page runs and the controls can produce, starting
    with neither key set. *)
Inductive reachable : session_state → Prop :=
  | reachable_fresh :
      reachable {| all_schedule_options := None; current_schedule_index := None |}
  | reachable_run id classes mandatory_classes free_days generate_button st :
      reachable st →
      reachable (timetable_creator id classes mandatory_classes free_days
                   generate_button st).2
  | reachable_browse control st :
      reachable st → offered control st → reachable (navigate control st).

(** * The registered classes *)

(** [st.session_state.classes_data]: a dictionary from ids to lists of
    classes.  The stored classes hold their times as text; the functions
    below read at most the name and the group of a class, so they are
    stated for any type of entries with these two keys. *)
Section ClassStore.
Context {entry : Type} (entry_name entry_group : entry → string).

(** [save_class_to_db(id, class_data)]. *)
Definition save_class_to_db (id : string) (class_data : entry)
    (classes_data : gmap string (list entry)) : gmap string (list entry) :=
  let classes_data :=
    match classes_data !! id with
    | None => <[id := []]> classes_data
    | Some _ => classes_data
    end in
  alter (fun l => l ++ [class_data]) id classes_data.

(** [get_classes_from_db(id)]. *)
Definition get_classes_from_db (id : string)
    (classes_data : gmap string (list entry)) : list entry :=
  default [] (classes_data !! id).

(** [remove_class_from_db(id, class_name, group)]. *)
Definition remove_class_from_db (id class_name group : string)
    (classes_data : gmap string (list entry)) : gmap string (list entry) :=
  match classes_data !! id with
  | Some l =>
      <[id := filter (fun cls => ¬ (entry_name cls = class_name
                                    ∧ entry_group cls = group)) l]> classes_data
  | None => classes_data
  end.

End ClassStore.

(** * The weekly grid *)

(** The columns of the grid, in [display_timetable_html] and in
    [create_single_sheet_xlsx_timetables]. *)
Definition days : list string :=
  ["Monday"; "Tuesday"; "Wednesday"; "Thursday"; "Friday"].

(** The cell of [display_timetable_html] for a time slot and a day: every
    class of the combination with a session on that day in that slot
    writes the cell (from its first such session), so the last such class
    stays.  The cell text is made of the name and the group of the class
    and of the room of the session; the pair of the class and the session
    stands for it. *)
Definition html_cell (combo : list class) (time_slot : time * time) (d : string)
  : option (class * session) :=
  foldl (fun cell_content cls =>
           match find (fun session =>
                         bool_decide (day session = d)
                         && bool_decide ((start_time session, end_time session)
                                         = time_slot))
                      (schedule cls) with
           | Some session => Some (cls, session)
           | None => cell_content
           end)
        None combo.

(** The rows of the table of [display_timetable_html]: one row for each
    time slot with one cell for each day. *)
Definition display_timetable_html (combo : list class)
    (time_slots : list (time * time))
  : list ((time * time) * list (option (class * session))) :=
  map (fun time_slot => (time_slot, map (html_cell combo time_slot) days)) time_slots.

(** [days.index(d)], which raises [ValueError] when [d] is not a column. *)
Definition days_index (d : string) : option nat :=
  fst <$> list_find (fun d' => d' = d) days.

(** The dictionary [class_colors] of the sheet, as the set of its keys:
    the names of the classes passed as [classes]; its values are random
    fills.  Only the names are read, so the classes as stored and the
    classes with their times parsed give the same keys. *)
Definition class_colors (classes : list class) : gset string :=
  list_to_set (map name classes).

(** A row of the sheet for one combination and one time slot, as the
    columns written and their content; [None] when an exception is
    raised: [ValueError] by [days.index] for a day that is not a column,
    [KeyError] by [class_colors[cls["name"]]] for a class whose name is
    not a key.  Every session in the slot writes its cell; a later one
    overwrites. *)
Definition xlsx_row (colors : gset string) (combo : list class)
    (time_slot : time * time) : option (gmap nat (class * session)) :=
  foldl (fun row cls =>
           foldl (fun row session =>
                    cells ← row;
                    if bool_decide ((start_time session, end_time session) = time_slot)
                    then day_col ← (fun i => (i + 2)%nat) <$> days_index (day session);
                         if decide (name cls ∈ colors)
                         then Some (<[day_col := (cls, session)]> cells)
                         else None
                    else Some cells)
                 row (schedule cls))
        (Some ∅) combo.

(** The tables [create_single_sheet_xlsx_timetables] fills in, one for
    each combination, before the workbook is saved under [filename];
    [None] when an exception leaves the function before that. *)
Definition create_single_sheet_xlsx_timetables (combos : list (list class))
    (time_slots : list (time * time)) (classes : list class)
  : option (list (list ((time * time) * gmap nat (class * session)))) :=
  let colors := class_colors classes in
  mapM (fun combo =>
          mapM (fun time_slot => pair time_slot <$> xlsx_row colors combo time_slot)
               time_slots)
       combos.

(** * Times as text *)

(** The value of a decimal digit. *)
Definition digit (c : ascii) : option nat :=
  let n := nat_of_ascii c in
  if ((48 <=? n) && (n <=? 57))%nat then Some (n - 48)%nat else None.

(** The ways a pattern of two digits, restricted by [ok], and a pattern
    of one digit match the beginning of a text: the number read and the
    text left. *)
Definition two_digits (ok : nat → nat → bool) (s : string) : list (nat * string) :=
  match s with
  | String a (String b rest) =>
      match digit a, digit b with
      | Some x, Some y => if ok x y then [((10 * x + y)%nat, rest)] else []
      | _, _ => []
      end
  | _ => []
  end.

Definition one_digit (s : string) : list (nat * string) :=
  match s with
  | String a rest => match digit a with Some x => [(x, rest)] | None => [] end
  | EmptyString => []
  end.

(** [%H] is matched by [2[0-3]|[0-1]\d|\d] and [%M] by [[0-5]\d|\d],
    the alternatives being tried in this order. *)
Definition hour_matches (s : string) : list (nat * string) :=
  two_digits (fun x y => (x =? 2)%nat && (y <=? 3)%nat) s
  ++ two_digits (fun x _ => (x <=? 1)%nat) s
  ++ one_digit s.

Definition minute_matches (s : string) : list (nat * string) :=
  two_digits (fun x _ => (x <=? 5)%nat) s ++ one_digit s.

Definition colon (s : string) : list string :=
  match s with
  | String ":" rest => [rest]
  | _ => []
  end.

(** [parse_time(time_str)], that is
    [datetime.strptime(time_str, "%H:%M").time()]: the first way to match
    hours, a colon and minutes at the beginning of the text gives the
    time, provided that no text is left; [None] stands for the
    [ValueError] raised otherwise. *)
Definition parse_time (time_str : string) : option time :=
  match hr ← hour_matches time_str;
        rest ← colon hr.2;
        mr ← minute_matches rest;
        [(hr.1, mr.1, mr.2)] with
  | (h, m, rest) :: _ =>
      if decide (rest = EmptyString) then Some {| hour := h; minute := m |} else None
  | [] => None
  end.

(** [t.strftime("%H:%M")] for a time of day (hour below 24, minute below
    60): two digits, a colon, two digits. *)
Definition two_digit_text (n : nat) : string :=
  String (ascii_of_nat (48 + n / 10)) (String (ascii_of_nat (48 + n mod 10)) EmptyString).

Definition strftime (t : time) : string :=
  two_digit_text (hour t) +:+ ":" +:+ two_digit_text (minute t).

(** [f"{begin_time[:2]}:{begin_time[2:]}"], by which
    [parse_banner_response] turns a time such as [0800] into [08:00]. *)
Definition military_to_text (begin_time : string) : string :=
  match begin_time with
  | String a (String b rest) => String a (String b (String ":" rest))
  | String a EmptyString => String a (String ":" EmptyString)
  | EmptyString => String ":" EmptyString
  end.

(** * Classes as they are stored and as they are combined *)

(** A stored class holds its times as text.  Of a stored class and of
    its sessions, the keys that the timetable reads. *)
Record stored_session := StoredSession {
  stored_day : string;
  stored_start_time : string;
  stored_end_time : string
}.

Record stored_class := StoredClass {
  stored_name : string;
  stored_group : string;
  stored_schedule : list stored_session
}.

(** The schedule the manual entry form stores for its rows of a day, a
    start time and an end time. *)
Definition manual_schedule (schedule_entries : list (string * time * time))
  : list stored_session :=
  map (fun '(d, start_time, end_time) =>
         {| stored_day := d;
            stored_start_time := strftime start_time;
            stored_end_time := strftime end_time |})
      schedule_entries.

(** The list [parsed_classes] that [timetable_creator] builds first: each
    session with its two times parsed.  [None] when [parse_time] raises,
    which ends the page run. *)
Definition parse_session (s : stored_session) : option session :=
  start_time ← parse_time (stored_start_time s);
  end_time ← parse_time (stored_end_time s);
  Some {| day := stored_day s; start_time := start_time; end_time := end_time |}.

Definition parse_classes (classes : list stored_class) : option (list class) :=
  mapM (fun cls =>
          schedule ← mapM parse_session (stored_schedule cls);
          Some {| name := stored_name cls; group := stored_group cls;
                  schedule := schedule |})
       classes.

(** * Request headers: [parse_headers.py] *)

(** Python strings are strings of characters with code points below 256.
    A dictionary whose order of insertion is read back ([items()]) is a
    list of pairs with distinct keys. *)
Module Headers.

(** [c.isspace()] for a character below 256: the characters that
    [str.strip()] removes. *)
Definition isspace (c : ascii) : bool :=
  let n := nat_of_ascii c in
  ((9 <=? n) && (n <=? 13) || (28 <=? n) && (n <=? 32)
   || (n =? 133) || (n =? 160))%nat.

Fixpoint lstrip (s : string) : string :=
  match s with
  | EmptyString => EmptyString
  | String c s' => if isspace c then lstrip s' else s
  end.

Fixpoint rstrip (s : string) : string :=
  match s with
  | EmptyString => EmptyString
  | String c s' =>
      match rstrip s' with
      | EmptyString => if isspace c then EmptyString else String c EmptyString
      | String c' r => String c (String c' r)
      end
  end.

(** [s.strip()]. *)
Definition strip (s : string) : string := rstrip (lstrip s).

(** [sep in s], for a separator of one character. *)
Fixpoint contains (sep : ascii) (s : string) : bool :=
  match s with
  | EmptyString => false
  | String c s' => if decide (c = sep) then true else contains sep s'
  end.

(** [s.split(sep)], for a separator of one character. *)
Fixpoint split (sep : ascii) (s : string) : list string :=
  match s with
  | EmptyString => [EmptyString]
  | String c s' =>
      if decide (c = sep) then EmptyString :: split sep s'
      else match split sep s' with
           | piece :: pieces => String c piece :: pieces
           | [] => [String c EmptyString]
           end
  end.

(** [s.split(sep, 1)] when [sep in s]: the text before the first
    separator and the text after it; [None] when [sep] is not in [s]. *)
Fixpoint split_once (sep : ascii) (s : string) : option (string * string) :=
  match s with
  | EmptyString => None
  | String c s' =>
      if decide (c = sep) then Some (EmptyString, s')
      else match split_once sep s' with
           | Some (before, after) => Some (String c before, after)
           | None => None
           end
  end.

(** [sep.join(l)]. *)
Fixpoint join (sep : string) (l : list string) : string :=
  match l with
  | [] => EmptyString
  | [x] => x
  | x :: l' => x +:+ sep +:+ join sep l'
  end.

(** [d[k] = v] on a dictionary: the value of a known key is replaced in
    place, a new key goes to the end. *)
Fixpoint dict_set (k v : string) (d : list (string * string)) : list (string * string) :=
  match d with
  | [] => [(k, v)]
  | (k', v') :: d' =>
      if decide (k' = k) then (k, v) :: d' else (k', v') :: dict_set k v d'
  end.

(** The body of the loop of [parse_request_headers] over the pieces of
    the Cookie header: a piece with an [=] sets a cookie, any other is
    skipped. *)
Definition add_cookie (cookies : list (string * string)) (cookie : string)
  : list (string * string) :=
  let cookie := strip cookie in
  match split_once "=" cookie with
  | Some (name, value) => dict_set (strip name) (strip value) cookies
  | None => cookies
  end.

(** The cookies [parse_request_headers] puts in [result["cookies"]], from
    the text of the Cookie header (group 1 of the match). *)
Definition parse_cookies (cookie_header : string) : list (string * string) :=
  let cookie_string := strip cookie_header in
  foldl add_cookie [] (split ";" cookie_string).

(** The cookie string [format_for_banner_api] builds from the cookies. *)
Definition cookie_string (cookies : list (string * string)) : string :=
  join "; " (map (fun '(name, value) => name +:+ "=" +:+ value) cookies).

(** A cookie that survives being written and read again: no white space
    around the name or the value, no [;] in either and no [=] in the
    name. *)
Definition cookie_ok (cookie : string * string) : Prop :=
  strip cookie.1 = cookie.1 ∧ strip cookie.2 = cookie.2
  ∧ contains ";" cookie.1 = false ∧ contains "=" cookie.1 = false
  ∧ contains ";" cookie.2 = false.

(** The dictionary [parse_request_headers] returns. *)
Record parsed_data := ParsedData {
  cookies : list (string * string);
  sync_token : option string;
  unique_session_id : option string;
  host : option string;
  base_url : option string;
  success : bool;
  errors : list string
}.

(** [parse_request_headers(headers_text)], given what the four searches
    of [headers_text] find: [None] when the pattern does not match,
    otherwise the text of group 1. *)
Definition parse_request_headers
    (session_id_match cookie_match sync_token_match host_match : option string)
  : parsed_data :=
  let unique_session_id := strip <$> session_id_match in
  let cookies := from_option parse_cookies [] cookie_match in
  let errors := match cookie_match with
                | Some _ => []
                | None => ["No Cookie header found"]
                end in
  let sync_token := strip <$> sync_token_match in
  let errors := match sync_token_match with
                | Some _ => errors
                | None => errors ++ ["No X-Synchronizer-Token header found"]
                end in
  let host := strip <$> host_match in
  let base_url := (fun h => "https://" +:+ h) <$> host in
  let errors := match host_match with
                | Some _ => errors
                | None => errors ++ ["No Host header found"]
                end in
  let success :=
    match cookies, sync_token with
    | _ :: _, Some (String _ _) => true
    | _, _ => false
    end in
  {| cookies := cookies; sync_token := sync_token;
     unique_session_id := unique_session_id; host := host;
     base_url := base_url; success := success; errors := errors |}.

(** The dictionary [format_for_banner_api] returns; its ["headers"] entry
    repeats the cookie string and the token. *)
Record credentials := Credentials {
  cred_cookies : string;
  cred_sync_token : option string;
  cred_unique_session_id : option string;
  cred_base_url : option string;
  cred_headers : list (string * option string)
}.

(** [format_for_banner_api(parsed_data)]. *)
Definition format_for_banner_api (data : parsed_data) : option credentials :=
  if negb (success data) then None
  else
    let cookie_string := cookie_string (cookies data) in
    Some {| cred_cookies := cookie_string;
            cred_sync_token := sync_token data;
            cred_unique_session_id := unique_session_id data;
            cred_base_url := base_url data;
            cred_headers := [("Cookie", Some cookie_string);
                             ("X-Synchronizer-Token", sync_token data)] |}.

End Headers.

(** * Properties of the time order *)

Section TimeOrderFacts.
Import TimeOrder.

Lemma ltb_lt a b : ltb a b = true ↔ lt a b.
Proof.
  unfold ltb, lt.
  rewrite orb_true_iff, andb_true_iff, !Nat.ltb_lt, Nat.eqb_eq. tauto.
Qed.

Lemma ltb_nlt a b : ltb a b = false ↔ ¬ lt a b.
Proof. rewrite <- ltb_lt. destruct (ltb a b); naive_solver. Qed.

End TimeOrderFacts.

(** * Overlap of two sessions *)

Section Overlap.
Import TimeOrder.

Ltac time_order :=
  unfold Spec.during, le, lt in *;
  repeat match goal with t : time |- _ => destruct t end;
  simpl in *; intuition (simplify_eq; try lia).

Lemma lt_irrefl t : ¬ lt t t.
Proof. time_order. Qed.

Lemma lt_trans a b c : lt a b → lt b c → lt a c.
Proof. time_order. Qed.

Lemma le_lt_trans a b c : le a b → lt b c → lt a c.
Proof. time_order. Qed.

Lemma le_total a b : le a b ∨ lt b a.
Proof.
  destruct a as [h m], b as [h' m']. unfold le, lt; simpl.
  destruct (decide (h = h')) as [->|]; [|lia].
  destruct (decide (m = m')) as [->|]; [by left; right | lia].
Qed.

Lemma max_lt a b c : lt (max a b) c ↔ lt a c ∧ lt b c.
Proof.
  unfold max. destruct (ltb a b) eqn:E.
  - apply ltb_lt in E. split; [|tauto]. eauto using lt_trans.
  - apply ltb_nlt in E. split; [|tauto]. intros Hac. split; [done|].
    destruct (le_total b a) as [Hle|Hlt]; [|done]. eauto using le_lt_trans.
Qed.

Lemma lt_min a b c : lt a (min b c) ↔ lt a b ∧ lt a c.
Proof.
  unfold min. destruct (ltb c b) eqn:E.
  - apply ltb_lt in E. split; [|tauto]. eauto using lt_trans.
  - apply ltb_nlt in E. split; [|tauto]. intros Hab. split; [done|].
    destruct (le_total b c) as [[Hlt| ->]|Hlt]; [|done..]. eauto using lt_trans.
Qed.

Lemma le_max_l a b : le a (max a b).
Proof.
  unfold max. destruct (ltb a b) eqn:E; [left; by apply ltb_lt | by right].
Qed.

Lemma le_max_r a b : le b (max a b).
Proof.
  unfold max. destruct (ltb a b) eqn:E; [by right|].
  apply ltb_nlt in E. destruct (le_total b a); tauto.
Qed.

(** [times_overlap] holds exactly when each start lies before each end. *)
Lemma times_overlap_true s1 e1 s2 e2 :
  times_overlap s1 e1 s2 e2 = true ↔ lt s1 e1 ∧ lt s1 e2 ∧ lt s2 e1 ∧ lt s2 e2.
Proof.
  unfold times_overlap. rewrite ltb_lt, max_lt, !lt_min. tauto.
Qed.

Lemma sessions_overlap_true a b :
  sessions_overlap a b = true ↔
  day a = day b ∧
  lt (max (start_time a) (start_time b)) (min (end_time a) (end_time b)).
Proof.
  unfold sessions_overlap, times_overlap.
  by rewrite andb_true_iff, bool_decide_eq_true, ltb_lt.
Qed.

Lemma sessions_overlap_common_time a b :
  sessions_overlap a b = true ↔
  day a = day b ∧ ∃ t, Spec.during t a ∧ Spec.during t b.
Proof.
  rewrite sessions_overlap_true. unfold Spec.during.
  split; intros [Hd H]; (split; [done|]).
  - exists (max (start_time a) (start_time b)).
    apply lt_min in H as [??]. eauto using le_max_l, le_max_r.
  - destruct H as (t & [??] & [??]).
    apply max_lt; split; apply lt_min; eauto using le_lt_trans.
Qed.

Lemma sessions_overlap_touching a b :
  end_time a = start_time b →
  sessions_overlap a b = false ∧ sessions_overlap b a = false.
Proof.
  intros Heq.
  split; apply not_true_is_false; rewrite sessions_overlap_true;
    intros [_ H]; apply max_lt in H as [H1 H2];
    apply lt_min in H1 as [??], H2 as [??];
    rewrite Heq in *; by eapply lt_irrefl.
Qed.

Lemma has_conflict_true class1 class2 :
  has_conflict class1 class2 = true ↔
  ∃ session1 session2, session1 ∈ schedule class1 ∧ session2 ∈ schedule class2
                       ∧ sessions_overlap session1 session2 = true.
Proof.
  unfold has_conflict. rewrite existsb_exists. split.
  - intros (s1 & H1 & H). apply existsb_exists in H as (s2 & H2 & H).
    exists s1, s2. by rewrite !list_elem_of_In.
  - intros (s1 & s2 & H1 & H2 & H). exists s1.
    rewrite <- list_elem_of_In, existsb_exists. split; [done|].
    exists s2. by rewrite <- list_elem_of_In.
Qed.

(** C1: the overlap test on two meetings is true exactly when the days
    are equal and [max(a.start, b.start) < min(a.end, b.end)], which is
    to say that some time lies in both half-open intervals; two
    meetings of which one ends exactly when the other starts do not
    overlap (in either order), and two sections that consist of such
    meetings do not conflict. *)
Theorem overlap_same_day_and_intersect :
  (∀ a b, sessions_overlap a b = true ↔
          day a = day b ∧
          lt (max (start_time a) (start_time b)) (min (end_time a) (end_time b)))
  ∧ (∀ a b, sessions_overlap a b = true ↔
            day a = day b ∧ ∃ t, Spec.during t a ∧ Spec.during t b)
  ∧ (∀ a b, day a = day b → end_time a = start_time b →
            sessions_overlap a b = false ∧ sessions_overlap b a = false)
  ∧ (∀ n g n' g' a b, day a = day b → end_time a = start_time b →
            has_conflict (Class n g [a]) (Class n' g' [b]) = false).
Proof.
  split; [exact sessions_overlap_true|].
  split; [exact sessions_overlap_common_time|].
  split; [intros a b _; exact (sessions_overlap_touching a b)|].
  intros n g n' g' a b _ Heq. simpl. unfold has_conflict; simpl.
  by rewrite (proj1 (sessions_overlap_touching a b Heq)).
Qed.

(** A meeting until 10:00 and one from 10:00 on the same day. *)
Lemma overlap_same_day_and_intersect_witness :
  let a := Session "Monday" (Time 9 0) (Time 10 0) in
  let b := Session "Monday" (Time 10 0) (Time 11 0) in
  day a = day b ∧ end_time a = start_time b
  ∧ sessions_overlap a b = false ∧ sessions_overlap b a = false
  ∧ has_conflict (Class "CS101" "A" [a]) (Class "CS102" "A" [b]) = false.
Proof.
  intros a b.
  split; [reflexivity|]. split; [reflexivity|].
  destruct overlap_same_day_and_intersect as (_ & _ & Htouch & Hconf).
  split; [exact (proj1 (Htouch a b eq_refl eq_refl))|].
  split; [exact (proj2 (Htouch a b eq_refl eq_refl))|].
  exact (Hconf _ _ _ _ a b eq_refl eq_refl).
Defined.

(** A section conflicts with itself as soon as one of its meetings is
    well formed: the test compares sessions only. *)
Lemma has_conflict_self_iff s :
  has_conflict s s = true ↔
  ∃ m, m ∈ schedule s ∧ lt (start_time m) (end_time m).
Proof.
  rewrite has_conflict_true. split.
  - intros (m1 & m2 & H1 & _ & H). exists m1. split; [done|].
    apply sessions_overlap_true in H as [_ H].
    apply max_lt in H as [H _]. by apply lt_min in H as [H _].
  - intros (m & Hm & Hlt). exists m, m. repeat split; try done.
    apply sessions_overlap_true. split; [done|].
    apply max_lt; split; by apply lt_min.
Qed.

End Overlap.

(** C8, in the form that holds of the code: the conflict test has no check of section identity.
    Applied to a section and itself it returns true exactly when the
    section has a meeting with [start_time < end_time]; so it returns true
    for every section with at least one meeting whose meetings are well
    formed. *)
Theorem has_conflict_same_section :
  (∀ s, has_conflict s s = true ↔
        ∃ m, m ∈ schedule s ∧ TimeOrder.lt (start_time m) (end_time m))
  ∧ (∀ s, schedule s ≠ [] →
          Forall (fun m => TimeOrder.lt (start_time m) (end_time m)) (schedule s) →
          has_conflict s s = true).
Proof.
  split; [exact has_conflict_self_iff|].
  intros s Hne Hall. apply has_conflict_self_iff.
  destruct (schedule s) as [|m l] eqn:E; [done|].
  exists m. split; [by left|]. by inversion Hall.
Qed.

Lemma has_conflict_same_section_witness :
  schedule Sample.M1 ≠ []
  ∧ Forall (fun m => TimeOrder.lt (start_time m) (end_time m)) (schedule Sample.M1)
  ∧ has_conflict Sample.M1 Sample.M1 = true.
Proof.
  assert (Hne : schedule Sample.M1 ≠ []) by discriminate.
  assert (Hall : Forall (fun m => TimeOrder.lt (start_time m) (end_time m))
                        (schedule Sample.M1)).
  { constructor; [left; simpl; lia | constructor]. }
  split; [exact Hne|]. split; [exact Hall|].
  exact (proj2 has_conflict_same_section Sample.M1 Hne Hall).
Defined.

(** The section M1 of the completeness example has one meeting and
    conflicts with itself. *)
Lemma has_conflict_same_section_counterexample :
  length (schedule Sample.M1) = 1%nat ∧ has_conflict Sample.M1 Sample.M1 ≠ false.
Proof. split; [reflexivity | discriminate]. Qed.

(** * Properties of the stable sort *)

Section StableSortFacts.
Context {A : Type} (before : A → A → bool).

Lemma stable_insert_perm x l : stable_insert before x l ≡ₚ x :: l.
Proof.
  induction l as [|y l IH]; simpl; [done|].
  destruct (before y x); [|done]. rewrite IH. apply Permutation_swap.
Qed.

Lemma stable_sort_perm l : stable_sort before l ≡ₚ l.
Proof.
  induction l as [|x l IH]; simpl; [done|].
  by rewrite stable_insert_perm, IH.
Qed.

(** Stability: the elements of one key class keep their input order. *)
Section Stability.
Context (P : A → Prop) `{!∀ x, Decision (P x)}.
Hypothesis same_key : ∀ x y, P x → P y → before y x = false.

Lemma stable_insert_filter x l :
  filter P (stable_insert before x l) = filter P (x :: l).
Proof.
  induction l as [|y l IH]; simpl; [done|].
  destruct (before y x) eqn:E; [|done].
  rewrite (filter_cons _ y), IH, !filter_cons.
  destruct (decide (P x)), (decide (P y)); try done.
  rewrite same_key in E; done.
Qed.

Lemma stable_sort_filter l : filter P (stable_sort before l) = filter P l.
Proof.
  induction l as [|x l IH]; simpl; [done|].
  by rewrite stable_insert_filter, !filter_cons, IH.
Qed.
End Stability.

(** Sortedness, when [before] is a strict weak order. *)
Section Sortedness.
Hypothesis asym : ∀ x y, before x y = true → before y x = false.
Hypothesis negtrans :
  ∀ x y z, before z x = true → before z y = true ∨ before y x = true.

Lemma stable_insert_sorted x l :
  StronglySorted (fun a b => before b a = false) l →
  StronglySorted (fun a b => before b a = false) (stable_insert before x l).
Proof.
  induction 1 as [|y l Hl IH Hy]; simpl; [by repeat constructor|].
  destruct (before y x) eqn:E.
  - constructor; [done|].
    apply Forall_forall. intros z Hz.
    rewrite stable_insert_perm in Hz. apply elem_of_cons in Hz as [-> | Hz].
    + by apply asym.
    + by eapply Forall_forall in Hy.
  - constructor; [by constructor|].
    constructor; [done|].
    apply Forall_forall. intros z Hz. eapply Forall_forall in Hy; [|done].
    apply not_true_is_false. intros Hzx.
    destruct (negtrans x y z Hzx) as [H|H]; congruence.
Qed.

Lemma stable_sort_sorted l :
  StronglySorted (fun a b => before b a = false) (stable_sort before l).
Proof.
  induction l; simpl; [constructor | by apply stable_insert_sorted].
Qed.
End Sortedness.
End StableSortFacts.

Lemma StronglySorted_weaken {A} (R R' : A → A → Prop) l :
  (∀ x y, R x y → R' x y) → StronglySorted R l → StronglySorted R' l.
Proof.
  intros HR. induction 1 as [|x l _ IH Hx]; constructor; [done|].
  eapply Forall_impl; eauto.
Qed.

(** * Time slots *)

Section TimeSlots.

Lemma elem_of_foldl_add_slot (sessions : list session) (acc : gset (time * time)) slot :
  slot ∈ foldl (fun acc' s => acc' ∪ {[ (start_time s, end_time s) ]}) acc sessions
  ↔ slot ∈ acc ∨ ∃ s, s ∈ sessions ∧ slot = (start_time s, end_time s).
Proof.
  revert acc. induction sessions as [|s l IH]; intros acc; simpl.
  - split; [tauto|]. intros [?|(s & Hs & _)]; [done|]. by apply elem_of_nil in Hs.
  - rewrite IH, elem_of_union, elem_of_singleton. split.
    + intros [[? | ->] | (s' & ? & ?)]; [tauto| |]; right.
      * exists s. split; [by left|done].
      * exists s'. split; [by right|done].
    + intros [?|(s' & Hs' & ->)]; [tauto|].
      apply elem_of_cons in Hs' as [-> | ?]; [tauto|]. right. by exists s'.
Qed.

Lemma elem_of_foldl_time_slots (classes : list class) (acc : gset (time * time)) slot :
  slot ∈ foldl (fun acc cls =>
                  foldl (fun acc' s => acc' ∪ {[ (start_time s, end_time s) ]})
                        acc (schedule cls)) acc classes
  ↔ slot ∈ acc
    ∨ ∃ cls s, cls ∈ classes ∧ s ∈ schedule cls ∧ slot = (start_time s, end_time s).
Proof.
  revert acc. induction classes as [|cls l IH]; intros acc; simpl.
  - split; [tauto|]. intros [?|(cls & s & Hc & _)]; [done|].
    by apply elem_of_nil in Hc.
  - rewrite IH, elem_of_foldl_add_slot. split.
    + intros [[?|(s & ? & ?)]|(cls' & s & ? & ? & ?)]; [tauto| |]; right.
      * exists cls, s. split; [by left|done].
      * exists cls', s. split; [by right|done].
    + intros [?|(cls' & s & Hc & Hs & ->)]; [tauto|].
      apply elem_of_cons in Hc as [-> | ?].
      * left. right. by exists s.
      * right. by exists cls', s.
Qed.

(** C9, in the form that holds of the code: an entry of the table of time slots is a pair
    (start, end) without the day.  The table holds exactly the pairs
    used by some session of some class of the list it is computed from,
    each pair once, ordered by start time. *)
Theorem time_slots_are_start_end_pairs (classes : list class) :
  (∀ slot, slot ∈ get_unique_time_slots classes ↔
           ∃ cls s, cls ∈ classes ∧ s ∈ schedule cls
                    ∧ slot = (start_time s, end_time s))
  ∧ NoDup (get_unique_time_slots classes)
  ∧ StronglySorted (fun x y => ¬ TimeOrder.lt y.1 x.1) (get_unique_time_slots classes).
Proof.
  unfold get_unique_time_slots. split; [|split].
  - intros slot. rewrite stable_sort_perm, elem_of_elements, elem_of_foldl_time_slots.
    split; [|by right]. intros [H|H]; [|done]. by apply elem_of_empty in H.
  - rewrite stable_sort_perm. apply NoDup_elements.
  - eapply StronglySorted_weaken;
      [|apply (stable_sort_sorted (fun y x : time * time => TimeOrder.ltb y.1 x.1))].
    + intros x y H. by apply ltb_nlt.
    + intros x y H. apply ltb_nlt. apply ltb_lt in H.
      intros H'. eapply lt_irrefl, lt_trans; eauto.
    + intros x y z H. apply ltb_lt in H.
      destruct (TimeOrder.ltb z.1 y.1) eqn:E; [by left|]. right.
      apply ltb_nlt in E. apply ltb_lt.
      destruct (le_total y.1 z.1) as [Hle|Hlt]; [|done].
      eapply le_lt_trans; eauto.
Qed.

(** One class that meets 09:00-10:00 on Monday and on Tuesday: two
    distinct (day, start, end) triples, one entry in the table. *)
Lemma time_slots_counterexample :
  let cls := Class "CS101" "A"
               [ Session "Monday" (Time 9 0) (Time 10 0);
                 Session "Tuesday" (Time 9 0) (Time 10 0) ] in
  NoDup (map (fun s => (day s, start_time s, end_time s)) (schedule cls))
  ∧ length (map (fun s => (day s, start_time s, end_time s)) (schedule cls)) = 2%nat
  ∧ get_unique_time_slots [cls] = [ (Time 9 0, Time 10 0) ].
Proof.
  intros cls. split; [|split]; [|reflexivity|by vm_compute].
  apply (bool_decide_unpack _). by vm_compute.
Qed.

End TimeSlots.

(** * The selections listed by [combinations] *)

Section Combinations.
Context {A : Type}.
Implicit Types (pool c : list A) (r : nat).

Lemma combinations_0 pool : combinations pool 0 = [[]].
Proof. by destruct pool. Qed.

(** [combinations pool r] lists the selections of [r] elements of
    [pool], and nothing else. *)
Lemma elem_of_combinations pool r c :
  c ∈ combinations pool r ↔ c `sublist_of` pool ∧ length c = r.
Proof.
  revert r c. induction pool as [|x rest IH]; intros r c.
  - destruct r; simpl.
    + rewrite list_elem_of_singleton, sublist_nil_r.
      split; [by intros -> | by intros [-> _]].
    + rewrite elem_of_nil, sublist_nil_r.
      split; [done | by intros [-> ?]].
  - destruct r as [|r']; simpl.
    + rewrite list_elem_of_singleton. split; [intros ->; split; [apply sublist_nil_l|done]|].
      intros [_ H]. by destruct c.
    + rewrite elem_of_app, (IH (S r')), sublist_cons_r.
      change (map (cons x) (combinations rest r'))
        with (cons x <$> combinations rest r').
      rewrite list_elem_of_fmap. split.
      * intros [(c' & -> & Hc')|[??]].
        -- apply IH in Hc' as [? <-]. split; [|done]. right. by exists c'.
        -- tauto.
      * intros [[?|(c' & -> & ?)] Hlen]; [tauto|]. left. exists c'. split; [done|].
        apply IH. split; [done|]. simpl in Hlen. lia.
Qed.

Lemma combinations_length pool r :
  Forall (fun c => length c = r) (combinations pool r).
Proof. apply Forall_forall. intros c Hc. by apply elem_of_combinations in Hc as [_ ?]. Qed.

End Combinations.

Lemma elem_of_range_down n k : k ∈ range_down n ↔ (1 ≤ k ≤ n)%nat.
Proof.
  induction n as [|n IH]; simpl.
  - rewrite elem_of_nil. lia.
  - rewrite elem_of_cons, IH. lia.
Qed.

(** * The two filters, as properties of the combination *)

Lemma has_time_conflict_false combo :
  has_time_conflict combo = false ↔ Spec.conflict_free combo.
Proof.
  unfold has_time_conflict, Spec.conflict_free. split.
  - intros H s1 s2 Hsub. apply not_true_is_false. intros Hc.
    apply not_true_iff_false in H. apply H, existsb_exists.
    exists [s1; s2]. split; [|done].
    apply list_elem_of_In, elem_of_combinations. by split.
  - intros H. apply not_true_is_false. intros Hex.
    apply existsb_exists in Hex as (pair & Hin & Hc).
    apply list_elem_of_In, elem_of_combinations in Hin as [Hsub Hlen].
    destruct pair as [|s1 [|s2 [|]]]; try done.
    by rewrite (H s1 s2 Hsub) in Hc.
Qed.

Lemma size_list_to_set_le (l : list string) :
  (size (list_to_set l : gset string) ≤ length l)%nat.
Proof.
  induction l as [|x l IH]; [by rewrite list_to_set_nil, size_empty|].
  rewrite list_to_set_cons, size_union_alt, size_singleton. cbn [length].
  assert (size (list_to_set l ∖ {[x]} : gset string) ≤ size (list_to_set l : gset string))%nat
    by (apply subseteq_size; set_solver).
  lia.
Qed.

Lemma length_eq_size_NoDup (l : list string) :
  length l = size (list_to_set l : gset string) ↔ NoDup l.
Proof.
  split; [|intros H; symmetry; by apply size_list_to_set].
  induction l as [|x l IH]; [constructor|].
  rewrite list_to_set_cons. cbn [length].
  intros Hlen. pose proof (size_list_to_set_le l) as Hle.
  destruct (decide (x ∈ l)) as [Hin|Hnin].
  - assert (({[x]} ∪ list_to_set l : gset string) = list_to_set l) as Heq
      by set_solver.
    rewrite Heq in Hlen. lia.
  - rewrite size_union, size_singleton in Hlen by set_solver.
    constructor; [done|]. apply IH. lia.
Qed.

Lemma has_unique_classes_true combination :
  has_unique_classes combination = true ↔ NoDup (map name combination).
Proof.
  unfold has_unique_classes. by rewrite bool_decide_eq_true, length_eq_size_NoDup.
Qed.

(** A combination is appended exactly when it is valid. *)
Lemma consider_Some free_days mandatory_classes k c o :
  consider free_days mandatory_classes k c = Some o ↔
  Spec.valid c
  ∧ o = {| score := priority_score free_days mandatory_classes k c;
           num_classes := k;
           combo := c;
           has_all_mandatory := includes_all_mandatory c mandatory_classes;
           respects_free_days := has_free_days c free_days |}.
Proof.
  unfold consider, Spec.valid.
  rewrite <- has_time_conflict_false, <- has_unique_classes_true.
  destruct (has_time_conflict c), (has_unique_classes c); simpl; naive_solver.
Qed.

(** The entries of [all_combinations_with_score]: one for each valid
    selection of between 1 and [min max_size (length pool)] classes. *)
Lemma elem_of_all_combinations max_size free_days mandatory_classes pool o :
  o ∈ all_combinations_with_score max_size free_days mandatory_classes pool ↔
  ∃ c, c `sublist_of` pool
       ∧ (1 ≤ length c ≤ Nat.min max_size (length pool))%nat
       ∧ Spec.valid c
       ∧ o = {| score := priority_score free_days mandatory_classes (length c) c;
                num_classes := length c;
                combo := c;
                has_all_mandatory := includes_all_mandatory c mandatory_classes;
                respects_free_days := has_free_days c free_days |}.
Proof.
  unfold all_combinations_with_score.
  rewrite list_elem_of_In, in_flat_map. split.
  - intros (k & Hk & Ho).
    apply list_elem_of_In, elem_of_range_down in Hk.
    apply list_elem_of_In, list_elem_of_omap in Ho as (c & Hc & Ho).
    apply elem_of_combinations in Hc as [Hsub <-].
    apply consider_Some in Ho as [Hv ->]. by exists c.
  - intros (c & Hsub & Hlen & Hv & ->). exists (length c). split.
    + by apply list_elem_of_In, elem_of_range_down.
    + apply list_elem_of_In, list_elem_of_omap. exists c. split.
      * by apply elem_of_combinations.
      * by apply consider_Some.
Qed.

(** * The score *)

Section Score.
Implicit Types (c combo : list class) (free_days mandatory : list string).

Lemma elem_of_scheduled_days c d :
  d ∈ flat_map (fun cls => map day (schedule cls)) c ↔
  ∃ s, s ∈ flat_map schedule c ∧ day s = d.
Proof.
  rewrite !list_elem_of_In, in_flat_map. split.
  - intros (cls & Hcls & Hd). apply in_map_iff in Hd as (s & <- & Hs).
    exists s. split; [|done]. apply list_elem_of_In, in_flat_map. eauto.
  - intros (s & Hs & <-). apply list_elem_of_In, in_flat_map in Hs as (cls & ? & ?).
    exists cls. split; [done|]. apply in_map_iff. eauto.
Qed.

Lemma length_filter_0 {A} (P : A → Prop) `{!∀ x, Decision (P x)} (l : list A) :
  length (filter P l) = O ↔ ∀ x, x ∈ l → ¬ P x.
Proof.
  induction l as [|x l IH]; [by split; [intros _ ? ?%elem_of_nil|]|].
  rewrite filter_cons. destruct (decide (P x)) as [HP|HP]; simpl.
  - split; [done|]. intros Hall. destruct (Hall x); [by left|done].
  - rewrite IH. split.
    + intros Hall y [-> | ?]%elem_of_cons; auto.
    + intros Hall y ?. apply Hall. by right.
Qed.

Lemma has_free_days_true c free_days :
  has_free_days c free_days = true ↔ Spec.keeps_free free_days c.
Proof.
  unfold has_free_days, Spec.keeps_free, Spec.meetings_on.
  rewrite forallb_forall, Forall_forall.
  apply forall_proper; intros d. rewrite <- list_elem_of_In.
  apply forall_proper; intros _.
  rewrite bool_decide_eq_true, elem_of_list_to_set, elem_of_scheduled_days.
  rewrite length_filter_0. naive_solver.
Qed.

Lemma includes_all_mandatory_true c mandatory :
  includes_all_mandatory c mandatory = true ↔ Spec.covers mandatory c.
Proof.
  unfold includes_all_mandatory, Spec.covers.
  rewrite forallb_forall, Forall_forall.
  apply forall_proper; intros m. rewrite <- list_elem_of_In.
  apply forall_proper; intros _.
  rewrite existsb_exists, Exists_exists.
  split; intros (cls & Hin & H); exists cls.
  - by rewrite list_elem_of_In, <- (bool_decide_eq_true (name cls = m)).
  - by rewrite <- list_elem_of_In, bool_decide_eq_true.
Qed.

Lemma mandatory_count_eq c mandatory :
  mandatory_count c mandatory = Spec.mandatory_in mandatory c.
Proof.
  unfold mandatory_count, Spec.mandatory_in.
  induction c as [|cls c IH]; [done|].
  rewrite filter_cons. simpl. destruct (decide (name cls ∈ mandatory)); simpl; lia.
Qed.

(** The score computed in the loop is the score of the specification. *)
Lemma priority_score_expected free_days mandatory c :
  priority_score free_days mandatory (length c) c
  = Spec.expected_score free_days mandatory c.
Proof.
  unfold priority_score, Spec.expected_score.
  rewrite mandatory_count_eq.
  destruct (has_free_days c free_days) eqn:Ef;
    destruct (includes_all_mandatory c mandatory) eqn:Em;
    repeat case_decide; try lia;
    repeat match goal with
      | H : has_free_days _ _ = true |- _ => apply has_free_days_true in H
      | H : has_free_days _ _ = false |- _ =>
          apply not_true_iff_false in H; rewrite has_free_days_true in H
      | H : includes_all_mandatory _ _ = true |- _ =>
          apply includes_all_mandatory_true in H
      | H : includes_all_mandatory _ _ = false |- _ =>
          apply not_true_iff_false in H; rewrite includes_all_mandatory_true in H
      end; tauto.
Qed.

(** C2: for every valid combination [c] of the pool of size [k], with
    [k] from 1 to [min max_size (length pool)], the Result Set has an
    entry for [c], with size [k] and score
    [k * 1000 + (500 if every free day has zero meetings across c)
     + 200 * (number of sections of c whose course is mandatory)
     + (300 if every mandatory course appears in c)];
    and every entry of the Result Set is such an entry: it carries a
    valid combination of the pool, its size and this score. *)
Theorem score_of_each_option max_size free_days mandatory pool :
  (∀ c, c `sublist_of` pool →
        (1 ≤ length c ≤ Nat.min max_size (length pool))%nat →
        Spec.valid c →
        ∃ o, o ∈ sort_by_score
                   (all_combinations_with_score max_size free_days mandatory pool)
             ∧ combo o = c
             ∧ num_classes o = length c
             ∧ score o = Spec.expected_score free_days mandatory c)
  ∧ Forall (fun o =>
              combo o `sublist_of` pool ∧ Spec.valid (combo o)
              ∧ (1 ≤ length (combo o) ≤ Nat.min max_size (length pool))%nat
              ∧ num_classes o = length (combo o)
              ∧ score o = Spec.expected_score free_days mandatory (combo o))
           (sort_by_score
              (all_combinations_with_score max_size free_days mandatory pool)).
Proof.
  split.
  - intros c Hsub Hlen Hv.
    exists {| score := priority_score free_days mandatory (length c) c;
              num_classes := length c;
              combo := c;
              has_all_mandatory := includes_all_mandatory c mandatory;
              respects_free_days := has_free_days c free_days |}.
    simpl. split_and!; try done; [|apply priority_score_expected].
    unfold sort_by_score. rewrite stable_sort_perm.
    apply elem_of_all_combinations. by exists c.
  - apply Forall_forall. intros o Ho.
    unfold sort_by_score in Ho. rewrite stable_sort_perm in Ho.
    apply elem_of_all_combinations in Ho as (c & Hsub & Hlen & Hv & ->). simpl.
    by rewrite priority_score_expected.
Qed.

(** The combination {M1, M3} of the sample pool, with Tuesday wanted
    free and both courses selected: 2000 + 400 + 300. *)
Lemma score_of_each_option_witness :
  ∃ o, o ∈ sort_by_score
             (all_combinations_with_score max_schedule_size ["Tuesday"]
                ["CS101"; "CS102"] Sample.pool)
       ∧ combo o = [Sample.M1; Sample.M3]
       ∧ num_classes o = 2%nat
       ∧ score o = 2700.
Proof.
  destruct (proj1 (score_of_each_option max_schedule_size ["Tuesday"]
                     ["CS101"; "CS102"] Sample.pool) [Sample.M1; Sample.M3])
    as (o & Ho & Hc & Hn & Hs).
  - apply sublist_skip, sublist_cons, sublist_skip, sublist_nil.
  - simpl. lia.
  - split.
    + apply has_time_conflict_false. by vm_compute.
    + apply has_unique_classes_true. by vm_compute.
  - exists o. split; [exact Ho|]. split; [exact Hc|]. split; [exact Hn|].
    rewrite Hs. by vm_compute.
Defined.

End Score.

(** * A run of the generator *)

Section Generate.
Implicit Types (c : list class) (free_days mandatory : list string)
               (st : session_state).

Lemma all_combinations_nil max_size free_days mandatory :
  all_combinations_with_score max_size free_days mandatory [] = [].
Proof. unfold all_combinations_with_score. simpl. by rewrite Nat.min_0_r. Qed.

(** When some combination is accepted, the run stores the sorted list
    and resets the cursor, whatever the session held before. *)
Lemma generate_found max_size free_days mandatory classes st :
  let listed := all_combinations_with_score max_size free_days mandatory
                  (filtered_classes mandatory classes) in
  listed ≠ [] →
  generate max_size free_days mandatory classes st
  = (FoundOptions (length (sort_by_score listed)),
     {| all_schedule_options := Some (sort_by_score listed);
        current_schedule_index := Some O |}).
Proof.
  intros listed Hne. unfold generate. fold listed.
  destruct (filtered_classes mandatory classes) as [|cls pool] eqn:Ef.
  - subst listed. by rewrite all_combinations_nil in Hne.
  - fold listed. by destruct listed.
Qed.

(** When nothing is accepted, the run leaves the session as it was. *)
Lemma generate_nothing max_size free_days mandatory classes st :
  all_combinations_with_score max_size free_days mandatory
    (filtered_classes mandatory classes) = [] →
  (generate max_size free_days mandatory classes st).2 = st.
Proof.
  intros Hnil. unfold generate.
  destruct (filtered_classes mandatory classes); [done|]. by rewrite Hnil.
Qed.

(** Every class on its own is a valid combination. *)
Lemma singleton_valid cls : Spec.valid [cls].
Proof.
  split.
  - intros s1 s2 Hsub. apply sublist_length in Hsub. simpl in Hsub. lia.
  - apply NoDup_singleton.
Qed.



End Generate.

(** * Completeness of the enumeration *)

Section Completeness.
Import Sample.

(** C3: on the pool M1 (CS101 A, Monday 09:00-10:00), M2 (CS101 B,
    Monday 09:30-10:30), M3 (CS102 A, Tuesday 09:00-10:00) the
    enumeration accepts, in this order, {M1,M3}, {M2,M3}, {M1}, {M2},
    {M3}; the Result Set holds exactly these five combinations, none of
    its combinations contains both M1 and M2, and a run without
    preferences stores them with the scores 2800, 2800, 1800, 1800,
    1800. *)
Theorem example_pool_options :
  (∀ free_days mandatory,
      map combo (all_combinations_with_score max_schedule_size free_days mandatory pool)
      = [[M1; M3]; [M2; M3]; [M1]; [M2]; [M3]])
  ∧ (∀ free_days mandatory,
      map combo (sort_by_score
                   (all_combinations_with_score max_schedule_size free_days mandatory pool))
      ≡ₚ [[M1; M3]; [M2; M3]; [M1]; [M2]; [M3]])
  ∧ (∀ free_days mandatory c,
      c ∈ map combo (sort_by_score
                       (all_combinations_with_score max_schedule_size free_days mandatory pool))
      → ¬ (M1 ∈ c ∧ M2 ∈ c))
  ∧ (∀ st,
      (timetable_creator (Some "s1") pool [] [] true st).2
      = {| all_schedule_options :=
             Some [ ScoredOption 2800 2 [M1; M3] true true;
                    ScoredOption 2800 2 [M2; M3] true true;
                    ScoredOption 1800 1 [M1] true true;
                    ScoredOption 1800 1 [M2] true true;
                    ScoredOption 1800 1 [M3] true true ];
           current_schedule_index := Some O |}).
Proof.
  assert (Hlisted : ∀ free_days mandatory,
    map combo (all_combinations_with_score max_schedule_size free_days mandatory pool)
    = [[M1; M3]; [M2; M3]; [M1]; [M2]; [M3]]).
  { intros. by vm_compute. }
  assert (Hsorted : ∀ free_days mandatory,
    map combo (sort_by_score
                 (all_combinations_with_score max_schedule_size free_days mandatory pool))
    ≡ₚ [[M1; M3]; [M2; M3]; [M1]; [M2]; [M3]]).
  { intros. rewrite <- (Hlisted free_days mandatory).
    apply Permutation_map, stable_sort_perm. }
  split; [done|]. split; [done|]. split.
  - intros free_days mandatory c Hc [H1 H2].
    rewrite Hsorted in Hc.
    repeat (apply elem_of_cons in Hc as [-> | Hc]);
      try (by apply elem_of_nil in Hc);
      repeat match goal with
        | H : _ ∈ _ :: _ |- _ => apply elem_of_cons in H as [H | H]; [discriminate H|]
        | H : _ ∈ [] |- _ => by apply elem_of_nil in H
        end.
  - intros st. by vm_compute.
Qed.

(** A selection of the pool that contains M1 and M2, for instance the
    pair itself, is not in the Result Set. *)
Lemma example_pool_options_witness :
  [M1; M2] ∉ map combo (sort_by_score
                          (all_combinations_with_score max_schedule_size [] [] pool)).
Proof.
  intros Hin.
  refine (proj1 (proj2 (proj2 example_pool_options)) [] [] [M1; M2] Hin _).
  split; [by left | by right; left].
Defined.

End Completeness.

Section NoHiddenLimit.
Implicit Types (c : list class) (free_days mandatory : list string).

Lemma range_down_seq n : range_down n = reverse (seq 1 n).
Proof.
  induction n as [|n IH]; [done|].
  rewrite seq_S, reverse_snoc. simpl. by rewrite IH.
Qed.

Lemma generate_lists_valid_selection max_size free_days mandatory classes st c :
  let pool := filtered_classes mandatory classes in
  c `sublist_of` pool →
  (1 ≤ length c ≤ Nat.min max_size (length pool))%nat →
  Spec.valid c →
  ∃ options,
    all_schedule_options (generate max_size free_days mandatory classes st).2
    = Some options
    ∧ options = sort_by_score
                  (all_combinations_with_score max_size free_days mandatory pool)
    ∧ c ∈ map combo options.
Proof.
  intros pool Hsub Hlen Hv.
  set (listed := all_combinations_with_score max_size free_days mandatory pool).
  set (o := {| score := priority_score free_days mandatory (length c) c;
               num_classes := length c;
               combo := c;
               has_all_mandatory := includes_all_mandatory c mandatory;
               respects_free_days := has_free_days c free_days |}).
  assert (Ho : o ∈ listed) by (apply elem_of_all_combinations; by exists c).
  assert (Hne : listed ≠ []) by (intros E; rewrite E in Ho; by apply elem_of_nil in Ho).
  exists (sort_by_score listed). split; [|split; [done|]].
  - by rewrite (generate_found max_size free_days mandatory classes st Hne).
  - change (c ∈ combo <$> sort_by_score listed).
    apply list_elem_of_fmap. exists o. split; [done|].
    unfold sort_by_score. by rewrite stable_sort_perm.
Qed.

(** C5: the candidate sizes are [min max_size (length pool)] down to 1,
    and no other limit applies: every selection of the pool of at least
    one and at most [min max_size (length pool)] classes without a
    conflicting pair and without a repeated course is in the Result Set
    the run stores.  ([timetable_creator] runs [generate] with
    [max_size = 6].) *)
Theorem every_valid_selection_is_listed max_size free_days mandatory classes st c :
  let pool := filtered_classes mandatory classes in
  c `sublist_of` pool →
  (1 ≤ length c ≤ Nat.min max_size (length pool))%nat →
  Spec.valid c →
  ∃ options,
    all_schedule_options (generate max_size free_days mandatory classes st).2
    = Some options
    ∧ options = sort_by_score
                  (flat_map (fun k => omap (consider free_days mandatory k)
                                           (combinations pool k))
                            (reverse (seq 1 (Nat.min max_size (length pool)))))
    ∧ c ∈ map combo options.
Proof.
  intros pool Hsub Hlen Hv.
  destruct (generate_lists_valid_selection max_size free_days mandatory classes st c
              Hsub Hlen Hv) as (options & Hst & Hopt & Hin).
  exists options. split; [done|]. split; [|done].
  rewrite Hopt. unfold all_combinations_with_score. by rewrite range_down_seq.
Qed.

Lemma every_valid_selection_is_listed_witness :
  ∃ options,
    all_schedule_options
      (generate max_schedule_size [] [] Sample.pool Sample.fresh).2 = Some options
    ∧ options = sort_by_score
                  (flat_map (fun k => omap (consider [] [] k)
                                           (combinations Sample.pool k))
                            (reverse (seq 1 (Nat.min max_schedule_size
                                                     (length Sample.pool)))))
    ∧ [Sample.M2; Sample.M3] ∈ map combo options.
Proof.
  apply (every_valid_selection_is_listed max_schedule_size [] [] Sample.pool
           Sample.fresh [Sample.M2; Sample.M3]).
  - apply sublist_cons, sublist_skip, sublist_skip, sublist_nil.
  - simpl. lia.
  - split.
    + apply has_time_conflict_false. reflexivity.
    + apply has_unique_classes_true. reflexivity.
Defined.

(** The same for a page run: the bound is 6. *)
Lemma timetable_creator_lists_every_valid_selection
    a id cls classes mandatory free_days st c :
  let pool := filtered_classes mandatory (cls :: classes) in
  c `sublist_of` pool →
  (1 ≤ length c ≤ Nat.min 6 (length pool))%nat →
  Spec.valid c →
  ∃ options,
    all_schedule_options
      (timetable_creator (Some (String a id)) (cls :: classes) mandatory free_days
         true st).2
    = Some options
    ∧ c ∈ map combo options.
Proof.
  intros pool Hsub Hlen Hv. simpl.
  destruct (generate_lists_valid_selection max_schedule_size free_days mandatory
              (cls :: classes) st c Hsub Hlen Hv) as (options & ? & _ & ?).
  by exists options.
Qed.

End NoHiddenLimit.

(** * Order of the Result Set *)

Section ResultOrder.
Implicit Types (l : list scored_option).

Lemma sort_by_score_perm l : sort_by_score l ≡ₚ l.
Proof. apply stable_sort_perm. Qed.

(** Entries of one score keep their order of enumeration. *)
Lemma sort_by_score_stable (s : Z) l :
  filter (fun o => score o = s) (sort_by_score l) = filter (fun o => score o = s) l.
Proof.
  apply stable_sort_filter. intros x y -> <-. apply Z.ltb_irrefl.
Qed.

Lemma stable_insert_ranked x l :
  Forall (fun b => (num_classes b ≤ num_classes x)%nat) l →
  StronglySorted Spec.ranks_before l →
  StronglySorted Spec.ranks_before
    (stable_insert (fun y x => score x <? score y) x l).
Proof.
  intros Hnum. induction 1 as [|y l Hl IH Hy]; simpl; [by repeat constructor|].
  apply Forall_cons in Hnum as [Hyx Hnum].
  destruct (score x <? score y) eqn:E.
  - apply Z.ltb_lt in E. constructor; [by apply IH|].
    apply Forall_forall. intros z Hz.
    rewrite stable_insert_perm in Hz. apply elem_of_cons in Hz as [-> | Hz].
    + by left.
    + by eapply Forall_forall in Hy.
  - apply Z.ltb_ge in E. constructor; [by constructor|].
    constructor.
    + unfold Spec.ranks_before. lia.
    + apply Forall_forall. intros z Hz.
      eapply Forall_forall in Hy; [|done]. eapply Forall_forall in Hnum; [|done].
      unfold Spec.ranks_before in *. simpl in *. lia.
Qed.

(** Sorting a list whose sizes do not increase gives a list ordered by
    score and, at equal score, by size. *)
Lemma sort_by_score_ranked l :
  StronglySorted (fun a b => (num_classes b ≤ num_classes a)%nat) l →
  StronglySorted Spec.ranks_before (sort_by_score l).
Proof.
  induction 1 as [|x l Hl IH Hx]; simpl; [constructor|].
  apply stable_insert_ranked; [|done].
  apply Forall_forall. intros z Hz.
  unfold sort_by_score in Hz. rewrite stable_sort_perm in Hz.
  by eapply Forall_forall in Hx.
Qed.

Lemma same_size_sorted k l :
  Forall (fun o => num_classes o = k) l →
  StronglySorted (fun a b => (num_classes b ≤ num_classes a)%nat) l.
Proof.
  induction 1 as [|o l Ho Hl IH]; constructor; [done|].
  eapply Forall_impl; [done|]. simpl. lia.
Qed.

(** The enumeration lists larger combinations first. *)
Lemma sizes_descending (f : nat → list scored_option) n :
  (∀ k o, o ∈ f k → num_classes o = k) →
  StronglySorted (fun a b => (num_classes b ≤ num_classes a)%nat)
                 (flat_map f (range_down n))
  ∧ Forall (fun o => (num_classes o ≤ n)%nat) (flat_map f (range_down n)).
Proof.
  intros Hf. induction n as [|n [IH1 IH2]]; simpl; [by split; constructor|].
  assert (Hhead : Forall (fun o => num_classes o = S n) (f (S n)))
    by (apply Forall_forall; auto).
  split.
  - apply StronglySorted_app. split_and!; [|clear IH2|done].
    + intros a b Ha Hb. eapply Forall_forall in Hhead; [|done].
      eapply Forall_forall in IH2; [|done]. simpl in *. lia.
    + by eapply same_size_sorted.
  - apply Forall_app. split.
    + eapply Forall_impl; [done|]. simpl. lia.
    + eapply Forall_impl; [done|]. simpl. lia.
Qed.
End ResultOrder.

Section ResultSet.
Implicit Types (c : list class) (free_days mandatory : list string)
               (st : session_state).

Lemma all_combinations_sizes_descending max_size free_days mandatory pool :
  StronglySorted (fun a b => (num_classes b ≤ num_classes a)%nat)
    (all_combinations_with_score max_size free_days mandatory pool).
Proof.
  unfold all_combinations_with_score. apply sizes_descending.
  intros k o (c & _ & Ho)%list_elem_of_omap.
  by apply consider_Some in Ho as [_ ->].
Qed.

(** C4: the Result Set is ordered by score, highest first; entries of
    equal score come with the larger combination first and keep, among
    themselves, the order in which the enumeration produced them.  The
    stored Result Set is a function of the inputs alone: two runs on the
    same classes and preferences store the same list in the same order,
    whatever the session held before. *)
Theorem result_set_order max_size free_days mandatory classes :
  let listed := all_combinations_with_score max_size free_days mandatory
                  (filtered_classes mandatory classes) in
  let result := sort_by_score listed in
  StronglySorted Spec.ranks_before result
  ∧ (∀ s : Z, filter (fun o => score o = s) result
              = filter (fun o => score o = s) listed)
  ∧ (listed ≠ [] →
     ∀ st1 st2,
       (generate max_size free_days mandatory classes st1).2
       = {| all_schedule_options := Some result; current_schedule_index := Some O |}
       ∧ generate max_size free_days mandatory classes st1
         = generate max_size free_days mandatory classes st2).
Proof.
  intros listed result. split; [|split].
  - apply sort_by_score_ranked, all_combinations_sizes_descending.
  - intros s. apply sort_by_score_stable.
  - intros Hne st1 st2.
    by rewrite !(generate_found max_size free_days mandatory classes _ Hne).
Qed.

Lemma result_set_order_witness :
  let st1 := Sample.fresh in
  let st2 := {| all_schedule_options := Some []; current_schedule_index := Some 3%nat |} in
  (generate max_schedule_size ["Monday"] [] Sample.pool st1).2
  = {| all_schedule_options :=
         Some (sort_by_score
                 (all_combinations_with_score max_schedule_size ["Monday"] []
                    (filtered_classes [] Sample.pool)));
       current_schedule_index := Some O |}
  ∧ generate max_schedule_size ["Monday"] [] Sample.pool st1
    = generate max_schedule_size ["Monday"] [] Sample.pool st2.
Proof.
  intros st1 st2.
  apply (proj2 (proj2 (result_set_order max_schedule_size ["Monday"] [] Sample.pool))).
  intros Hnil. vm_compute in Hnil. discriminate Hnil.
Defined.

(** With Monday as free day the section on Tuesday alone scores above
    the two sections on Monday, which keep their enumeration order. *)
Example monday_free_ranking :
  map (fun o => (score o, map group (combo o)))
      (sort_by_score
         (all_combinations_with_score max_schedule_size ["Monday"] [] Sample.pool))
  = [ (2300, ["A"; "A"]); (2300, ["B"; "A"]);
      (1800, ["A"]); (1300, ["A"]); (1300, ["B"]) ].
Proof. by vm_compute. Qed.

End ResultSet.

(** * Monotonicity of the score *)

Section Monotonicity.
Implicit Types (c : list class) (free_days mandatory : list string).

Lemma mandatory_count_insert c1 s c2 mandatory :
  (mandatory_count (c1 ++ c2) mandatory
   ≤ mandatory_count (c1 ++ s :: c2) mandatory)%nat.
Proof.
  unfold mandatory_count. rewrite !filter_app, filter_cons, !length_app.
  destruct (decide (name s ∈ mandatory)); simpl; lia.
Qed.

Lemma includes_all_mandatory_insert c1 s c2 mandatory :
  includes_all_mandatory (c1 ++ c2) mandatory = true →
  includes_all_mandatory (c1 ++ s :: c2) mandatory = true.
Proof.
  rewrite !includes_all_mandatory_true. unfold Spec.covers.
  intros H. eapply Forall_impl; [exact H|].
  intros m. rewrite !Exists_app, Exists_cons. tauto.
Qed.

(** Inserting a section anywhere in a combination raises the score by
    at least 500: 1000 for the size, at most 500 lost for the free
    days, nothing lost on the mandatory courses. *)
Lemma priority_score_insert free_days mandatory c1 s c2 :
  priority_score free_days mandatory (length (c1 ++ c2)) (c1 ++ c2) + 500
  ≤ priority_score free_days mandatory (length (c1 ++ s :: c2)) (c1 ++ s :: c2).
Proof.
  unfold priority_score.
  pose proof (mandatory_count_insert c1 s c2 mandatory) as Hcount.
  pose proof (includes_all_mandatory_insert c1 s c2 mandatory) as Hall.
  rewrite !length_app. simpl length.
  destruct (has_free_days (c1 ++ c2) free_days),
           (has_free_days (c1 ++ s :: c2) free_days),
           (includes_all_mandatory (c1 ++ c2) mandatory),
           (includes_all_mandatory (c1 ++ s :: c2) mandatory);
    try (specialize (Hall eq_refl); discriminate Hall); lia.
Qed.

(** C6: for fixed preferences, adding to a valid combination [c] a
    section [s] that conflicts with no section of [c] and whose course
    differs from all of theirs gives a combination (of size one more)
    whose score is strictly greater.  The combination is written
    [c1 ++ c2] and the section is added at any position. *)
Theorem adding_a_section_raises_score free_days mandatory c1 s c2 :
  Spec.valid (c1 ++ c2) →
  (∀ s', s' ∈ c1 ++ c2 →
         has_conflict s s' = false ∧ has_conflict s' s = false ∧ name s' ≠ name s) →
  length (c1 ++ s :: c2) = S (length (c1 ++ c2))
  ∧ priority_score free_days mandatory (length (c1 ++ c2)) (c1 ++ c2)
    < priority_score free_days mandatory (length (c1 ++ s :: c2)) (c1 ++ s :: c2).
Proof.
  intros _ _. split.
  - rewrite !length_app. simpl. lia.
  - pose proof (priority_score_insert free_days mandatory c1 s c2). lia.
Qed.

(** Adding M3 to {M1}, with Tuesday wanted free: the bonus of 500 is
    lost and the score still rises, from 1800 to 2300. *)
Lemma adding_a_section_raises_score_witness :
  priority_score ["Tuesday"] [] 1 [Sample.M1] = 1800
  ∧ priority_score ["Tuesday"] [] 2 [Sample.M1; Sample.M3] = 2300
  ∧ priority_score ["Tuesday"] [] (length ([Sample.M1] ++ []))
      ([Sample.M1] ++ [])
    < priority_score ["Tuesday"] [] (length ([Sample.M1] ++ Sample.M3 :: []))
        ([Sample.M1] ++ Sample.M3 :: []).
Proof.
  split; [by vm_compute|]. split; [by vm_compute|].
  apply (adding_a_section_raises_score ["Tuesday"] [] [Sample.M1] Sample.M3 []).
  - apply singleton_valid.
  - intros s' Hs'. apply list_elem_of_singleton in Hs' as ->.
    split; [by vm_compute|]. split; [by vm_compute|]. discriminate.
Defined.

End Monotonicity.

(** * Runs that store nothing *)

Section EarlyReturns.
Implicit Types (free_days mandatory : list string) (st : session_state).

(** C7, in the form that holds of the code: a run with zero sections raises no error; it shows
    a notice and returns early, and the stored Result Set and cursor stay
    as they were (absent in a fresh session, those of the previous run
    otherwise).  This holds when no class is registered, and in
    [generate] when the selection leaves no class. *)
Theorem no_sections_leaves_session_untouched id mandatory free_days button st :
  timetable_creator id [] mandatory free_days button st
  = (match id with
     | Some (String _ _) => NoClassesFound
     | _ => AddClassesFirst
     end, st)
  ∧ (∀ max_size classes,
       filtered_classes mandatory classes = [] →
       generate max_size free_days mandatory classes st = (SelectAtLeastOneClass, st)).
Proof.
  split.
  - unfold timetable_creator. by destruct id as [[|a id]|].
  - intros max_size classes Hnil. unfold generate. by rewrite Hnil.
Qed.

Lemma no_sections_leaves_session_untouched_witness :
  let st := {| all_schedule_options := Some [ScoredOption 1800 1 [Sample.M1] true true];
               current_schedule_index := Some O |} in
  generate max_schedule_size [] ["CS999"] Sample.pool st = (SelectAtLeastOneClass, st).
Proof.
  intros st.
  apply (proj2 (no_sections_leaves_session_untouched None ["CS999"] [] false st)).
  by vm_compute.
Defined.

(** No class registered, button pressed: in a fresh session the key of
    the Result Set stays absent (it is not set to the empty list), and
    after an earlier run its one option is still there. *)
Lemma no_sections_counterexample :
  let previous := {| all_schedule_options :=
                       Some [ScoredOption 1800 1 [Sample.M1] true true];
                     current_schedule_index := Some O |} in
  all_schedule_options (timetable_creator (Some "s1") [] [] [] true Sample.fresh).2
  = None
  ∧ all_schedule_options (timetable_creator (Some "s1") [] [] [] true Sample.fresh).2
    ≠ Some []
  ∧ all_schedule_options (timetable_creator (Some "s1") [] [] [] true previous).2
    ≠ Some [].
Proof. intros previous. split; [reflexivity|]. split; discriminate. Qed.




End EarlyReturns.

(** * Further properties of the conflict test and of the filters *)

Section ConflictFacts.
Import TimeOrder.

Lemma sessions_overlap_sym a b : sessions_overlap a b = sessions_overlap b a.
Proof.
  apply eq_true_iff_eq. rewrite !sessions_overlap_true, !max_lt, !lt_min.
  split; intros [-> ?]; tauto.
Qed.

(** The conflict test does not depend on the order of its arguments. *)
Theorem has_conflict_sym class1 class2 :
  has_conflict class1 class2 = has_conflict class2 class1.
Proof.
  apply eq_true_iff_eq. rewrite !has_conflict_true.
  split; intros (s1 & s2 & ? & ? & H); exists s2, s1;
    by rewrite sessions_overlap_sym.
Qed.

(** [has_unique_classes] accepts a combination exactly when the classes
    at two different positions never have the same name. *)
Theorem has_unique_classes_positions (combination : list class) :
  has_unique_classes combination = true ↔
  ∀ i j cls1 cls2,
    combination !! i = Some cls1 → combination !! j = Some cls2 →
    name cls1 = name cls2 → i = j.
Proof.
  rewrite has_unique_classes_true.
  change (map name combination) with (name <$> combination).
  rewrite NoDup_alt. split.
  - intros H i j cls1 cls2 Hi Hj Hn. apply (H i j (name cls1)).
    + by rewrite list_lookup_fmap, Hi.
    + by rewrite list_lookup_fmap, Hj, Hn.
  - intros H i j x Hi Hj. rewrite list_lookup_fmap in Hi, Hj.
    destruct (combination !! i) as [cls1|] eqn:Ei; [|done].
    destruct (combination !! j) as [cls2|] eqn:Ej; [|done].
    simpl in *. apply (H i j cls1 cls2); congruence.
Qed.

End ConflictFacts.

(** * Further properties of the Result Set *)

Section ResultSetFacts.
Implicit Types (c : list class) (free_days mandatory : list string)
               (o : scored_option).

Lemma valid_sublist c c' : Spec.valid c → c' `sublist_of` c → Spec.valid c'.
Proof.
  intros [Hc Hn] Hsub. split.
  - intros s1 s2 H. apply Hc. by etrans.
  - eapply sublist_NoDup; [exact Hn|].
    change (name <$> c' `sublist_of` name <$> c). by apply fmap_sublist.
Qed.

Lemma elem_of_result_combos max_size free_days mandatory pool c :
  c ∈ map combo (sort_by_score
                   (all_combinations_with_score max_size free_days mandatory pool))
  ↔ c `sublist_of` pool
    ∧ (1 ≤ length c ≤ Nat.min max_size (length pool))%nat
    ∧ Spec.valid c.
Proof.
  change (map combo ?l) with (combo <$> l).
  rewrite list_elem_of_fmap. unfold sort_by_score. split.
  - intros (o & -> & Ho). rewrite stable_sort_perm in Ho.
    by apply elem_of_all_combinations in Ho as (c & ? & ? & ? & ->).
  - intros (Hsub & Hlen & Hv).
    eexists. split; [|rewrite stable_sort_perm; apply elem_of_all_combinations;
                      exists c; eauto].
    done.
Qed.

(** Whenever a combination is in the Result Set, so is every non-empty
    selection of its classes. *)
Theorem sub_selections_are_listed max_size free_days mandatory pool c c' :
  c ∈ map combo (sort_by_score
                   (all_combinations_with_score max_size free_days mandatory pool)) →
  c' `sublist_of` c → c' ≠ [] →
  c' ∈ map combo (sort_by_score
                    (all_combinations_with_score max_size free_days mandatory pool)).
Proof.
  rewrite !elem_of_result_combos. intros (Hsub & Hlen & Hv) Hsub' Hne.
  split; [by etrans|]. split; [|by eapply valid_sublist].
  apply sublist_length in Hsub'. destruct c'; [done|]. simpl in *. lia.
Qed.

Lemma sub_selections_are_listed_witness :
  [Sample.M3] ∈ map combo (sort_by_score
                    (all_combinations_with_score max_schedule_size [] [] Sample.pool)).
Proof.
  apply (sub_selections_are_listed max_schedule_size [] [] Sample.pool
           [Sample.M2; Sample.M3] [Sample.M3]).
  - apply (bool_decide_unpack _). by vm_compute.
  - apply sublist_cons, sublist_skip, sublist_nil.
  - discriminate.
Defined.

End ResultSetFacts.

Section NoRepetition.
Implicit Types (free_days mandatory : list string).

Lemma NoDup_combinations {A} (pool : list A) r :
  NoDup pool → NoDup (combinations pool r).
Proof.
  intros Hpool. revert r. induction Hpool as [|x rest Hx Hrest IH]; intros r.
  - destruct r; simpl; [apply NoDup_singleton | constructor].
  - destruct r as [|r']; simpl; [apply NoDup_singleton|].
    change (map (cons x) (combinations rest r'))
      with (cons x <$> combinations rest r').
    apply NoDup_app. split_and!; [|  |done].
    { apply NoDup_fmap_2; [|done]. intros c1 c2 Heq. by injection Heq. }
    intros c (c' & -> & _)%list_elem_of_fmap [Hsub _]%elem_of_combinations.
    apply Hx. eapply elem_of_sublist; [|exact Hsub]. by left.
Qed.

Lemma accepted_combos_sublist free_days mandatory k (l : list (list class)) :
  combo <$> omap (consider free_days mandatory k) l `sublist_of` l.
Proof.
  induction l as [|c l IH]; [done|]. simpl.
  destruct (consider free_days mandatory k c) as [o|] eqn:E; simpl.
  - apply consider_Some in E as [_ ->]. simpl. by apply sublist_skip.
  - by apply sublist_cons.
Qed.

Lemma NoDup_accepted_combos free_days mandatory (pool : list class) ks :
  NoDup pool → NoDup ks →
  NoDup (combo <$> flat_map (fun k => omap (consider free_days mandatory k)
                                           (combinations pool k)) ks).
Proof.
  intros Hpool. induction 1 as [|k ks Hk Hks IH]; simpl; [constructor|].
  rewrite fmap_app. apply NoDup_app. split_and!; [| |done].
  - eapply sublist_NoDup; [|apply accepted_combos_sublist].
    by apply NoDup_combinations.
  - intros c Hc1 Hc2.
    eapply elem_of_sublist in Hc1; [|apply accepted_combos_sublist].
    apply elem_of_combinations in Hc1 as [_ Hlen].
    apply list_elem_of_fmap in Hc2 as (o & -> & Ho).
    apply list_elem_of_In, in_flat_map in Ho as (k' & Hk' & Ho).
    apply list_elem_of_In, list_elem_of_omap in Ho as (c & Hc & Ho).
    apply consider_Some in Ho as [_ ->]. simpl in Hlen.
    apply elem_of_combinations in Hc as [_ Hlen'].
    apply Hk. apply list_elem_of_In in Hk'. congruence.
Qed.

(** When no class occurs twice among the classes to combine, no
    combination occurs twice in the Result Set. *)
Theorem no_combination_listed_twice max_size free_days mandatory (pool : list class) :
  NoDup pool →
  NoDup (map combo (sort_by_score
                      (all_combinations_with_score max_size free_days mandatory pool))).
Proof.
  intros Hpool.
  change (map combo ?l) with (combo <$> l).
  unfold sort_by_score. rewrite stable_sort_perm.
  unfold all_combinations_with_score.
  apply NoDup_accepted_combos; [done|].
  rewrite range_down_seq, reverse_Permutation. apply NoDup_seq.
Qed.

Lemma no_combination_listed_twice_witness :
  NoDup (map combo (sort_by_score
                      (all_combinations_with_score max_schedule_size ["Monday"] []
                         Sample.pool))).
Proof.
  apply (no_combination_listed_twice max_schedule_size ["Monday"] [] Sample.pool).
  apply (bool_decide_unpack _). by vm_compute.
Defined.

End NoRepetition.

(** * The options of a page run *)

Section PageRun.
Implicit Types (c : list class) (free_days mandatory : list string)
               (o : scored_option).

Lemma elem_of_filtered_classes mandatory classes cls :
  cls ∈ filtered_classes mandatory classes →
  cls ∈ classes ∧ (mandatory ≠ [] → name cls ∈ mandatory).
Proof.
  unfold filtered_classes. destruct mandatory as [|m l]; [done|].
  by intros [? ?]%list_elem_of_filter.
Qed.

Lemma mandatory_count_all c mandatory :
  (∀ cls, cls ∈ c → name cls ∈ mandatory) → mandatory_count c mandatory = length c.
Proof.
  unfold mandatory_count. induction c as [|cls c IH]; intros H; [done|].
  rewrite filter_cons. destruct (decide (name cls ∈ mandatory)) as [|Hn].
  - simpl. rewrite IH; [done|]. intros ? ?. apply H. by right.
  - destruct Hn. apply H. by left.
Qed.

Lemma mandatory_count_nil c : mandatory_count c [] = O.
Proof.
  unfold mandatory_count. induction c as [|cls c IH]; [done|].
  rewrite filter_cons. destruct (decide (name cls ∈ [])) as [H|]; [|done].
  by apply elem_of_nil in H.
Qed.

Lemma has_free_days_sessions c free_days :
  has_free_days c free_days = true ↔
  ∀ cls s, cls ∈ c → s ∈ schedule cls → day s ∉ free_days.
Proof.
  rewrite has_free_days_true. unfold Spec.keeps_free, Spec.meetings_on.
  rewrite Forall_forall. split.
  - intros H cls s Hcls Hs Hd. specialize (H _ Hd).
    apply (proj1 (length_filter_0 _ _) H s); [|done].
    apply list_elem_of_In, in_flat_map. exists cls. by rewrite <- !list_elem_of_In.
  - intros H d Hd. apply length_filter_0. intros s Hs <-.
    apply list_elem_of_In, in_flat_map in Hs as (cls & Hcls & Hs).
    rewrite <- !list_elem_of_In in *. by eapply H.
Qed.

Lemma includes_all_mandatory_names c mandatory :
  includes_all_mandatory c mandatory = true ↔
  ∀ m, m ∈ mandatory → ∃ cls, cls ∈ c ∧ name cls = m.
Proof.
  rewrite includes_all_mandatory_true. unfold Spec.covers.
  rewrite Forall_forall. apply forall_proper; intros m.
  apply forall_proper; intros _. rewrite Exists_exists. done.
Qed.

(** The two flags stored with an option say what they are displayed as:
    [respects_free_days] holds exactly when no session of the combination
    falls on a free day, [has_all_mandatory] exactly when every selected
    course name is the name of one of its classes. *)
Theorem flags_of_each_option max_size free_days mandatory pool :
  Forall (fun o =>
            (respects_free_days o = true ↔
             ∀ cls s, cls ∈ combo o → s ∈ schedule cls → day s ∉ free_days)
            ∧ (has_all_mandatory o = true ↔
               ∀ m, m ∈ mandatory → ∃ cls, cls ∈ combo o ∧ name cls = m))
         (sort_by_score (all_combinations_with_score max_size free_days mandatory pool)).
Proof.
  apply Forall_forall. intros o Ho.
  unfold sort_by_score in Ho. rewrite stable_sort_perm in Ho.
  apply elem_of_all_combinations in Ho as (c & _ & _ & _ & ->). simpl.
  split; [apply has_free_days_sessions | apply includes_all_mandatory_names].
Qed.

(** The shape of the score in a page run, where the classes combined are
    those of the selected courses (all classes when nothing is selected). *)
Lemma score_in_run max_size free_days mandatory classes o :
  o ∈ all_combinations_with_score max_size free_days mandatory
        (filtered_classes mandatory classes) →
  (∀ cls, cls ∈ combo o → cls ∈ classes ∧ (mandatory ≠ [] → name cls ∈ mandatory))
  ∧ (mandatory = [] → has_all_mandatory o = true)
  ∧ score o
    = (if decide (mandatory = []) then 1000 else 1200) * Z.of_nat (num_classes o)
      + (if respects_free_days o then 500 else 0)
      + (if has_all_mandatory o then 300 else 0).
Proof.
  intros (c & Hsub & _ & _ & ->)%elem_of_all_combinations. simpl.
  assert (Hin : ∀ cls, cls ∈ c →
                  cls ∈ classes ∧ (mandatory ≠ [] → name cls ∈ mandatory)).
  { intros cls Hcls. apply elem_of_filtered_classes.
    eapply elem_of_sublist; eauto. }
  split; [done|]. split; [by intros ->|].
  unfold priority_score. case_decide as Hm.
  - subst mandatory. rewrite mandatory_count_nil. simpl.
    destruct (has_free_days c free_days); lia.
  - rewrite mandatory_count_all by (intros; by apply Hin).
    destruct (has_free_days c free_days), (includes_all_mandatory c mandatory); lia.
Qed.

(** In a page run the score is
    [1000 k + 500 (free days kept) + 300] when no course is selected and
    [1200 k + 500 (free days kept) + 300 (all selected courses present)]
    otherwise, for an option of [k] classes; with a selection, an option
    contains classes of selected courses only. *)
Theorem score_of_each_option_in_run max_size free_days mandatory classes :
  Forall (fun o =>
            (∀ cls, cls ∈ combo o →
                    cls ∈ classes ∧ (mandatory ≠ [] → name cls ∈ mandatory))
            ∧ (mandatory = [] → has_all_mandatory o = true)
            ∧ score o
              = (if decide (mandatory = []) then 1000 else 1200)
                * Z.of_nat (num_classes o)
                + (if respects_free_days o then 500 else 0)
                + (if has_all_mandatory o then 300 else 0))
         (sort_by_score
            (all_combinations_with_score max_size free_days mandatory
               (filtered_classes mandatory classes))).
Proof.
  apply Forall_forall. intros o Ho.
  unfold sort_by_score in Ho. rewrite stable_sort_perm in Ho.
  by eapply score_in_run.
Qed.

Lemma score_in_run_size max_size free_days mandatory classes a b :
  a ∈ all_combinations_with_score max_size free_days mandatory
        (filtered_classes mandatory classes) →
  b ∈ all_combinations_with_score max_size free_days mandatory
        (filtered_classes mandatory classes) →
  (num_classes a < num_classes b)%nat → score a < score b.
Proof.
  intros (_ & _ & ->)%score_in_run (_ & _ & ->)%score_in_run Hlt.
  destruct (respects_free_days a), (respects_free_days b),
           (has_all_mandatory a), (has_all_mandatory b);
    case_decide; lia.
Qed.

(** In a page run the number of classes decides the rank: an option with
    more classes always has the higher score, so the stored list runs
    from the largest combinations to the smallest and its first entry,
    whose size the page announces as that of the best schedules, has the
    largest size of all. *)
Theorem larger_options_rank_first max_size free_days mandatory classes :
  let result := sort_by_score
                  (all_combinations_with_score max_size free_days mandatory
                     (filtered_classes mandatory classes)) in
  (∀ a b, a ∈ result → b ∈ result →
          (num_classes a < num_classes b)%nat → score a < score b)
  ∧ StronglySorted (fun a b => (num_classes b ≤ num_classes a)%nat) result
  ∧ (∀ best rest, result = best :: rest →
                  Forall (fun o => (num_classes o ≤ num_classes best)%nat) rest).
Proof.
  intros result.
  assert (Hdom : ∀ a b, a ∈ result → b ∈ result →
                        (num_classes a < num_classes b)%nat → score a < score b).
  { intros a b Ha Hb. unfold result, sort_by_score in Ha, Hb.
    rewrite stable_sort_perm in Ha, Hb. by eapply score_in_run_size. }
  assert (Hsorted : StronglySorted (fun a b => (num_classes b ≤ num_classes a)%nat) result).
  { pose proof (sort_by_score_ranked _
                  (all_combinations_sizes_descending max_size free_days mandatory
                     (filtered_classes mandatory classes))) as Hr.
    fold result in Hr. revert Hdom Hr. generalize result. clear. intros l Hdom.
    induction 1 as [|x l Hl IH Hx]; constructor.
    - apply IH. intros a b Ha Hb. apply Hdom; by right.
    - apply Forall_forall. intros z Hz. eapply Forall_forall in Hx; [|done].
      destruct (decide (num_classes z ≤ num_classes x)%nat) as [|Hn]; [done|].
      assert (score x < score z) by (apply Hdom; [by left | by right | lia]).
      unfold Spec.ranks_before in Hx. lia. }
  split; [done|]. split; [done|].
  intros best rest Heq. rewrite Heq in Hsorted. by inversion Hsorted.
Qed.

(** Both courses selected, Tuesday wanted free: the two options of two
    classes come first although they use Tuesday. *)
Lemma larger_options_rank_first_witness :
  Forall (fun o => (num_classes o ≤ 2)%nat)
    [ ScoredOption 2700 2 [Sample.M2; Sample.M3] true false;
      ScoredOption 1700 1 [Sample.M1] false true;
      ScoredOption 1700 1 [Sample.M2] false true;
      ScoredOption 1200 1 [Sample.M3] false false ].
Proof.
  refine (proj2 (proj2 (larger_options_rank_first max_schedule_size ["Tuesday"]
                          ["CS101"; "CS102"] Sample.pool))
            (ScoredOption 2700 2 [Sample.M1; Sample.M3] true false) _ _).
  by vm_compute.
Defined.

End PageRun.

(** * Browsing *)

Section Browsing.
Implicit Types (st : session_state) (control : navigation).

(** What holds of the two keys in every session that can arise: they are
    set together, the stored list is not empty and the cursor is the
    position of one of its entries, which is the option shown. *)
Lemma browsable_after_generate max_size free_days mandatory classes st :
  (match all_schedule_options st with
   | None => current_schedule_index st = None
   | Some l => ∃ i o, current_schedule_index st = Some i ∧ l !! i = Some o
                      ∧ current_option st = Some o
   end) →
  match all_schedule_options (generate max_size free_days mandatory classes st).2 with
  | None => current_schedule_index
              (generate max_size free_days mandatory classes st).2 = None
  | Some l => ∃ i o, current_schedule_index
                       (generate max_size free_days mandatory classes st).2 = Some i
                     ∧ l !! i = Some o
                     ∧ current_option
                         (generate max_size free_days mandatory classes st).2 = Some o
  end.
Proof.
  intros Hst. unfold generate.
  destruct (filtered_classes mandatory classes) as [|cls pool]; [done|].
  destruct (all_combinations_with_score _ _ _ (cls :: pool)) as [|o l] eqn:E; [done|].
  assert (Hne : sort_by_score (o :: l) ≠ []).
  { intros Hnil. pose proof (sort_by_score_perm (o :: l)) as Hp.
    rewrite Hnil in Hp. by apply Permutation_nil_cons in Hp. }
  destruct (sort_by_score (o :: l)) as [|o' l'] eqn:Es; [done|].
  unfold current_option. simpl. by exists O, o'.
Qed.

Lemma browsable_after_navigate control st :
  offered control st →
  (match all_schedule_options st with
   | None => current_schedule_index st = None
   | Some l => ∃ i o, current_schedule_index st = Some i ∧ l !! i = Some o
                      ∧ current_option st = Some o
   end) →
  match all_schedule_options (navigate control st) with
  | None => current_schedule_index (navigate control st) = None
  | Some l => ∃ i o, current_schedule_index (navigate control st) = Some i
                     ∧ l !! i = Some o
                     ∧ current_option (navigate control st) = Some o
  end.
Proof.
  intros Hoff Hst. unfold navigate.
  destruct (all_schedule_options st) as [[|o rest]|] eqn:E; try by rewrite E.
  destruct Hst as (i & oi & Hi & Hl & Hcur). rewrite Hi. simpl.
  pose proof (lookup_lt_Some _ _ _ Hl) as Hlt. simpl in Hlt.
  assert (Hset : ∀ j, (j < S (length rest))%nat →
            match all_schedule_options (set_index j st) with
            | None => current_schedule_index (set_index j st) = None
            | Some l => ∃ i o, current_schedule_index (set_index j st) = Some i
                               ∧ l !! i = Some o
                               ∧ current_option (set_index j st) = Some o
            end).
  { intros j Hj. unfold current_option. simpl. rewrite E. simpl.
    destruct (lookup_lt_is_Some_2 (o :: rest) j) as [oj Hoj]; [simpl; lia|].
    by exists j, oj. }
  assert (Hsame : match all_schedule_options st with
            | None => current_schedule_index st = None
            | Some l => ∃ i o, current_schedule_index st = Some i ∧ l !! i = Some o
                               ∧ current_option st = Some o
            end) by (rewrite E; by exists i, oi).
  destruct control as [| |entered| |]; simpl in *.
  - destruct (i =? 0)%nat; [done|]. apply Hset. lia.
  - destruct (length rest - 0 <=? i)%nat; [done|]. apply Hset. lia.
  - rewrite E in Hoff. simpl in Hoff.
    destruct (entered - 1 =? i)%nat; [done|]. apply Hset. lia.
  - apply Hset. lia.
  - apply Hset. lia.
Qed.

(** In every session that page runs and the controls can produce, the
    Result Set and the cursor are set together, a stored Result Set is
    never empty, and the cursor is the position of one of its entries:
    the option to display always exists. *)
Theorem reachable_sessions_are_browsable st :
  reachable st →
  match all_schedule_options st with
  | None => current_schedule_index st = None
  | Some l => l ≠ []
              ∧ ∃ i o, current_schedule_index st = Some i ∧ l !! i = Some o
                       ∧ current_option st = Some o
  end.
Proof.
  assert (Hweak : ∀ st',
    match all_schedule_options st' with
    | None => current_schedule_index st' = None
    | Some l => ∃ i o, current_schedule_index st' = Some i ∧ l !! i = Some o
                       ∧ current_option st' = Some o
    end →
    match all_schedule_options st' with
    | None => current_schedule_index st' = None
    | Some l => l ≠ []
                ∧ ∃ i o, current_schedule_index st' = Some i ∧ l !! i = Some o
                         ∧ current_option st' = Some o
    end).
  { intros st'. destruct (all_schedule_options st') as [l|]; [|done].
    intros (i & o & Hi & Hl & Hc). split; [|by exists i, o].
    intros ->. by rewrite lookup_nil in Hl. }
  intros Hr. apply Hweak.
  induction Hr as [|id classes mandatory free_days button st Hr IH
                   |control st Hr IH Hoff]; [done| |].
  - unfold timetable_creator. destruct id as [[|a id]|]; [done| |done].
    destruct classes; [done|]. destruct button; [|done].
    by apply browsable_after_generate.
  - by apply browsable_after_navigate.
Qed.

(** A run on the sample pool, then Next twice and Last. *)
Lemma reachable_sessions_are_browsable_witness :
  let st := navigate Last (navigate Next (navigate Next
              (timetable_creator (Some "s1") Sample.pool [] [] true Sample.fresh).2)) in
  match all_schedule_options st with
  | None => current_schedule_index st = None
  | Some l => l ≠ []
              ∧ ∃ i o, current_schedule_index st = Some i ∧ l !! i = Some o
                       ∧ current_option st = Some o
  end.
Proof.
  intros st. apply reachable_sessions_are_browsable.
  repeat (apply reachable_browse; [|exact I]).
  apply reachable_run, reachable_fresh.
Defined.

End Browsing.

(** * The registered classes *)

Section ClassStoreFacts.
Context {entry : Type} (entry_name entry_group : entry → string).
Implicit Types (classes_data : gmap string (list entry)) (id : string).

Lemma save_class_to_db_insert id (class_data : entry) classes_data :
  save_class_to_db id class_data classes_data
  = <[id := get_classes_from_db id classes_data ++ [class_data]]> classes_data.
Proof.
  unfold save_class_to_db, get_classes_from_db. apply map_eq. intros id'.
  destruct (classes_data !! id) as [l|] eqn:E; simpl.
  - rewrite lookup_alter, lookup_insert. case_decide; subst; by rewrite ?E.
  - rewrite lookup_alter, !lookup_insert. case_decide; subst; simpl; [|done].
    by rewrite decide_True.
Qed.

Lemma get_after_save id id' (class_data : entry) classes_data :
  get_classes_from_db id' (save_class_to_db id class_data classes_data)
  = if decide (id' = id)
    then get_classes_from_db id classes_data ++ [class_data]
    else get_classes_from_db id' classes_data.
Proof.
  rewrite save_class_to_db_insert. unfold get_classes_from_db.
  rewrite lookup_insert. repeat case_decide; by subst.
Qed.

(** Saving a class appends it to the listing of its id, whether or not
    the id was known before, leaves the listings of the other ids alone
    and adds no id but its own. *)
Theorem listing_after_save id (class_data : entry) classes_data :
  let after := save_class_to_db id class_data classes_data in
  get_classes_from_db id after = get_classes_from_db id classes_data ++ [class_data]
  ∧ (∀ id', id' ≠ id →
            get_classes_from_db id' after = get_classes_from_db id' classes_data)
  ∧ dom after = {[id]} ∪ dom classes_data.
Proof.
  intros after. subst after. split_and!.
  - by rewrite get_after_save, decide_True.
  - intros id' Hne. by rewrite get_after_save, decide_False.
  - rewrite save_class_to_db_insert. apply dom_insert_L.
Qed.

Lemma listing_after_remove id id' class_name group classes_data :
  get_classes_from_db id'
    (remove_class_from_db entry_name entry_group id class_name group classes_data)
  = if decide (id' = id)
    then filter (fun cls => ¬ (entry_name cls = class_name ∧ entry_group cls = group))
                (get_classes_from_db id classes_data)
    else get_classes_from_db id' classes_data.
Proof.
  unfold remove_class_from_db, get_classes_from_db.
  destruct (classes_data !! id) as [l|] eqn:E.
  - rewrite lookup_insert. repeat case_decide; subst; by rewrite ?E.
  - case_decide; subst; by rewrite ?E.
Qed.

(** Deleting by name and group removes from the listing of the id every
    class with that name and group, keeps the other classes in their
    order, leaves the other ids alone and never creates an id. *)
Theorem listing_after_delete id class_name group classes_data :
  let after := remove_class_from_db entry_name entry_group id class_name group
                 classes_data in
  (∀ cls, cls ∈ get_classes_from_db id after ↔
          cls ∈ get_classes_from_db id classes_data
          ∧ ¬ (entry_name cls = class_name ∧ entry_group cls = group))
  ∧ get_classes_from_db id after `sublist_of` get_classes_from_db id classes_data
  ∧ (∀ id', id' ≠ id →
            get_classes_from_db id' after = get_classes_from_db id' classes_data)
  ∧ dom after = dom classes_data.
Proof.
  intros after. subst after. split_and!.
  - intros cls. rewrite listing_after_remove, decide_True by done.
    rewrite list_elem_of_filter. tauto.
  - rewrite listing_after_remove, decide_True by done. apply sublist_filter.
  - intros id' Hne. by rewrite listing_after_remove, decide_False.
  - unfold remove_class_from_db.
    destruct (classes_data !! id) as [l|] eqn:E; [|done].
    rewrite dom_insert_L. apply (elem_of_dom_2 (D:=gset string)) in E. set_solver.
Qed.

End ClassStoreFacts.

Lemma listing_after_save_witness :
  get_classes_from_db "s2" (save_class_to_db "s1" Sample.M1 ∅) = [].
Proof.
  rewrite (proj1 (proj2 (listing_after_save "s1" Sample.M1 ∅)) "s2");
    [reflexivity | discriminate].
Defined.

Lemma listing_after_delete_witness :
  let stored := save_class_to_db "s2" Sample.M3 (save_class_to_db "s1" Sample.M1 ∅) in
  get_classes_from_db "s2" (remove_class_from_db name group "s1" "CS101" "A" stored)
  = [Sample.M3].
Proof.
  intros stored.
  rewrite (proj1 (proj2 (proj2 (listing_after_delete name group "s1" "CS101" "A" stored)))
             "s2"); [by vm_compute | discriminate].
Defined.

Section ClassStoreRoundTrip.
Context {entry : Type} (entry_name entry_group : entry → string).
Implicit Types (classes_data : gmap string (list entry)) (id : string).

(** Saving a class and then deleting by its name and group gives every
    id the listing it has when the deletion is done without the saving:
    the deletion takes the new class and every older class with the same
    name and group.  When there was no such older class, every listing
    is as before the saving. *)
Theorem save_then_delete id id' (class_data : entry) classes_data :
  get_classes_from_db id'
    (remove_class_from_db entry_name entry_group id
       (entry_name class_data) (entry_group class_data)
       (save_class_to_db id class_data classes_data))
  = get_classes_from_db id'
      (remove_class_from_db entry_name entry_group id
         (entry_name class_data) (entry_group class_data) classes_data)
  ∧ (Forall (fun cls => ¬ (entry_name cls = entry_name class_data
                           ∧ entry_group cls = entry_group class_data))
            (get_classes_from_db id classes_data) →
     get_classes_from_db id'
       (remove_class_from_db entry_name entry_group id
          (entry_name class_data) (entry_group class_data)
          (save_class_to_db id class_data classes_data))
     = get_classes_from_db id' classes_data).
Proof.
  rewrite !listing_after_remove, !get_after_save.
  destruct (decide (id' = id)) as [->|Hne]; [|done].
  destruct (decide (id = id)); [|done].
  rewrite filter_app, filter_cons_False by tauto.
  rewrite filter_nil, app_nil_r. split; [done|].
  intros Hall. induction Hall as [|cls l Hcls Hl IH]; [done|].
  by rewrite filter_cons_True, IH.
Qed.

End ClassStoreRoundTrip.

(** Two sections of CS101 are saved for a student and section A is
    deleted: section B is what remains. *)
Lemma save_then_delete_witness :
  let stored := save_class_to_db "s1" Sample.M2 ∅ in
  get_classes_from_db "s1"
    (remove_class_from_db name group "s1" "CS101" "A"
       (save_class_to_db "s1" Sample.M1 stored))
  = get_classes_from_db "s1" stored.
Proof.
  intros stored.
  apply (proj2 (save_then_delete name group "s1" "s1" Sample.M1 stored)).
  apply (bool_decide_unpack _). by vm_compute.
Defined.

(** * The weekly grid *)

Section Grid.
Implicit Types (combo : list class) (time_slot : time * time) (d : string).

Lemma elem_of_get_unique_time_slots (classes : list class) slot :
  slot ∈ get_unique_time_slots classes ↔
  ∃ cls s, cls ∈ classes ∧ s ∈ schedule cls ∧ slot = (start_time s, end_time s).
Proof.
  unfold get_unique_time_slots.
  rewrite stable_sort_perm, elem_of_elements, elem_of_foldl_time_slots.
  split; [|by right]. intros [H|H]; [|done]. by apply elem_of_empty in H.
Qed.

Lemma find_in_slot_Some (sessions : list session) time_slot d s :
  find (fun session => bool_decide (day session = d)
                       && bool_decide ((start_time session, end_time session)
                                       = time_slot)) sessions = Some s →
  s ∈ sessions ∧ day s = d ∧ (start_time s, end_time s) = time_slot.
Proof.
  intros [Hin H]%find_some. apply andb_true_iff in H as [H1 H2].
  apply bool_decide_eq_true in H1, H2. by rewrite list_elem_of_In.
Qed.

Lemma find_in_slot_None (sessions : list session) time_slot d s :
  find (fun session => bool_decide (day session = d)
                       && bool_decide ((start_time session, end_time session)
                                       = time_slot)) sessions = None →
  s ∈ sessions → ¬ (day s = d ∧ (start_time s, end_time s) = time_slot).
Proof.
  intros Hnone Hin [H1 H2].
  apply list_elem_of_In in Hin.
  pose proof (find_none _ _ Hnone s Hin) as H. simpl in H.
  by rewrite !bool_decide_eq_true_2 in H.
Qed.

(** What is in a cell comes from the combination. *)
Lemma html_cell_sound combo time_slot d cls s :
  html_cell combo time_slot d = Some (cls, s) →
  cls ∈ combo ∧ s ∈ schedule cls ∧ day s = d
  ∧ (start_time s, end_time s) = time_slot.
Proof.
  unfold html_cell.
  assert (H : ∀ acc,
    foldl (fun cell_content cls =>
             match find (fun session =>
                           bool_decide (day session = d)
                           && bool_decide ((start_time session, end_time session)
                                           = time_slot))
                        (schedule cls) with
             | Some session => Some (cls, session)
             | None => cell_content
             end) acc combo = Some (cls, s) →
    acc = Some (cls, s)
    ∨ (cls ∈ combo ∧ s ∈ schedule cls ∧ day s = d
       ∧ (start_time s, end_time s) = time_slot)).
  { induction combo as [|c combo IH]; intros acc; simpl; [by left|].
    intros [Hacc|(? & ? & ? & ?)]%IH.
    - destruct (find _ (schedule c)) as [s'|] eqn:E; [|by left].
      simplify_eq. apply find_in_slot_Some in E as (? & ? & ?).
      right. split; [by left|done].
    - right. split; [by right|done]. }
  intros [?|?]%H; done.
Qed.

(** In a combination without conflicts whose sessions all end after they
    start, no class hides another: each session is what its cell holds. *)
Lemma html_cell_complete combo cls s :
  Spec.conflict_free combo →
  (∀ cls' s', cls' ∈ combo → s' ∈ schedule cls' →
              TimeOrder.lt (start_time s') (end_time s')) →
  cls ∈ combo → s ∈ schedule cls →
  html_cell combo (start_time s, end_time s) (day s) = Some (cls, s).
Proof.
  intros Hfree Hwf Hcls Hs.
  apply list_elem_of_split in Hcls as (l1 & l2 & ->).
  unfold html_cell. rewrite foldl_app. simpl.
  destruct (find _ (schedule cls)) as [s'|] eqn:E.
  2:{ by destruct (find_in_slot_None _ _ _ s E Hs). }
  apply find_in_slot_Some in E as (Hs' & Hd & Hslot).
  assert (s' = s) as ->.
  { destruct s, s'; simpl in *. by simplify_eq. }
  clear Hs'. generalize (foldl
    (fun cell_content cls0 =>
       match find (fun session => bool_decide (day session = day s)
                     && bool_decide ((start_time session, end_time session)
                                     = (start_time s, end_time s)))
                  (schedule cls0) with
       | Some session => Some (cls0, session)
       | None => cell_content
       end) None l1). intros _.
  assert (Hl2 : ∀ cls2, cls2 ∈ l2 →
    find (fun session => bool_decide (day session = day s)
            && bool_decide ((start_time session, end_time session)
                            = (start_time s, end_time s)))
         (schedule cls2) = None).
  { intros cls2 Hcls2.
    destruct (find _ (schedule cls2)) as [s2|] eqn:E2; [|done]. exfalso.
    apply find_in_slot_Some in E2 as (Hs2 & Hd2 & Hslot2).
    assert (Hsub : [cls; cls2] `sublist_of` l1 ++ cls :: l2).
    { apply sublist_inserts_l, sublist_skip. by apply singleton_sublist_l. }
    pose proof (Hfree cls cls2 Hsub) as Hno.
    assert (has_conflict cls cls2 = true) as Hyes; [|congruence].
    apply has_conflict_true. exists s, s2. split; [done|]. split; [done|].
    apply sessions_overlap_true. split; [done|].
    simplify_eq. rewrite H, H0.
    assert (TimeOrder.lt (start_time s) (end_time s)).
    { eapply Hwf; [|done]. apply elem_of_app. right. by left. }
    apply max_lt. split; by apply lt_min. }
  clear Hfree Hwf. induction l2 as [|cls2 l2 IH]; simpl; [done|].
  rewrite (Hl2 cls2) by by left. apply IH. intros ? ?. apply Hl2. by right.
Qed.

(** The table of a displayed schedule, with the time slots of all
    registered classes as rows: when the schedule has no conflict and
    its sessions end after they start, every session on a day from
    Monday to Friday is in the cell of its slot and day, and the cells
    hold nothing but sessions of the schedule on these days; a session
    on another day is not in the table. *)
Theorem table_shows_weekday_sessions (classes : list class) combo :
  (∀ cls, cls ∈ combo → cls ∈ classes) →
  Spec.conflict_free combo →
  (∀ cls s, cls ∈ combo → s ∈ schedule cls →
            TimeOrder.lt (start_time s) (end_time s)) →
  ∀ cls s,
    (∃ time_slot cells,
        (time_slot, cells)
          ∈ display_timetable_html combo (get_unique_time_slots classes)
        ∧ Some (cls, s) ∈ cells)
    ↔ cls ∈ combo ∧ s ∈ schedule cls ∧ day s ∈ days.
Proof.
  intros Hin Hfree Hwf cls s. unfold display_timetable_html.
  change (map ?f ?l) with (f <$> l). split.
  - intros (ts & cells & Hrow & Hcell).
    apply list_elem_of_fmap in Hrow as (ts' & [= -> ->] & _).
    change (Some (cls, s) ∈ html_cell combo ts' <$> days) in Hcell.
    apply list_elem_of_fmap in Hcell as (d & Hd & Hday).
    symmetry in Hd. apply html_cell_sound in Hd as (? & ? & -> & _). done.
  - intros (Hcls & Hs & Hday).
    exists (start_time s, end_time s),
           (map (html_cell combo (start_time s, end_time s)) days).
    split.
    + apply list_elem_of_fmap. exists (start_time s, end_time s). split; [done|].
      apply elem_of_get_unique_time_slots. exists cls, s. auto.
    + change (map ?f ?l) with (f <$> l).
      apply list_elem_of_fmap. exists (day s). split; [|done].
      symmetry. by apply html_cell_complete.
Qed.

Lemma table_shows_weekday_sessions_witness :
  let combo := [Sample.M2; Sample.M3] in
  let s := Session "Tuesday" (Time 9 0) (Time 10 0) in
  ∃ time_slot cells,
    (time_slot, cells) ∈ display_timetable_html combo (get_unique_time_slots Sample.pool)
    ∧ Some (Sample.M3, s) ∈ cells.
Proof.
  intros combo s.
  apply (table_shows_weekday_sessions Sample.pool combo).
  - intros cls Hcls. eapply elem_of_sublist; [exact Hcls|].
    apply sublist_cons, sublist_skip, sublist_skip, sublist_nil.
  - apply has_time_conflict_false. by vm_compute.
  - intros cls s' Hcls Hs'.
    repeat (apply elem_of_cons in Hcls as [-> | Hcls]);
      [..|by apply elem_of_nil in Hcls];
      apply list_elem_of_singleton in Hs' as ->; left; simpl; lia.
  - split; [by right; left|]. split; [by left|]. by right; left.
Defined.

End Grid.

(** * The sheet *)

Section Sheet.
Implicit Types (combo : list class) (time_slot : time * time).

Lemma days_index_None d : days_index d = None ↔ d ∉ days.
Proof.
  unfold days_index. rewrite fmap_None, list_find_None, Forall_forall.
  split.
  - intros H Hd. by apply (H d).
  - intros H d' Hd' ->. done.
Qed.

Lemma elem_of_class_colors (classes : list class) n :
  n ∈ class_colors classes ↔ ∃ cls, cls ∈ classes ∧ name cls = n.
Proof.
  unfold class_colors. rewrite elem_of_list_to_set.
  change (map name classes) with (name <$> classes).
  rewrite list_elem_of_fmap. naive_solver.
Qed.

Lemma parse_classes_keeps_names (stored : list stored_class) (parsed : list class) :
  parse_classes stored = Some parsed →
  class_colors parsed = list_to_set (map stored_name stored).
Proof.
  unfold class_colors, parse_classes. intros H%mapM_Some. f_equal.
  induction H as [|c cls stored parsed Hc _ IH]; [done|].
  destruct (mapM parse_session (stored_schedule c)) as [sch|]; [|done].
  cbn in Hc. injection Hc as <-. cbn. by f_equal.
Qed.

Lemma xlsx_sessions_None (colors : gset string) (cls : class) time_slot
    (sessions : list session) (row : option (gmap nat (class * session))) :
  foldl (fun row session =>
           cells ← row;
           if bool_decide ((start_time session, end_time session) = time_slot)
           then day_col ← (fun i => (i + 2)%nat) <$> days_index (day session);
                if decide (name cls ∈ colors)
                then Some (<[day_col := (cls, session)]> cells)
                else None
           else Some cells) row sessions = None
  ↔ row = None
    ∨ ∃ s, s ∈ sessions ∧ (start_time s, end_time s) = time_slot
           ∧ (day s ∉ days ∨ name cls ∉ colors).
Proof.
  revert row. induction sessions as [|s l IH]; intros row; simpl.
  - split; [by left|]. intros [?|(s & Hs & _)]; [done|]. by apply elem_of_nil in Hs.
  - rewrite IH. split.
    + intros [Hrow|(s' & ? & ? & ?)].
      * destruct row as [cells|]; [|by left]. right. simpl in Hrow.
        case_bool_decide as Hslot; [|done].
        exists s. split; [by left|]. split; [done|].
        destruct (days_index (day s)) as [i|] eqn:Ei.
        -- simpl in Hrow. destruct (decide (name cls ∈ colors)); [done|by right].
        -- left. by apply days_index_None.
      * right. exists s'. split; [by right|done].
    + intros [->|(s' & Hs' & Hslot & Hwhy)]; [by left|].
      apply elem_of_cons in Hs' as [-> | Hs'].
      * left. destruct row as [cells|]; [|done]. simpl.
        rewrite bool_decide_eq_true_2 by done.
        destruct (days_index (day s)) as [i|] eqn:Ei; [|done]. simpl.
        destruct (decide (name cls ∈ colors)); [|done].
        destruct Hwhy as [Hday|?]; [|done].
        apply days_index_None in Hday. congruence.
      * right. by exists s'.
Qed.

Lemma xlsx_row_None (colors : gset string) combo time_slot :
  xlsx_row colors combo time_slot = None ↔
  ∃ cls s, cls ∈ combo ∧ s ∈ schedule cls
           ∧ (start_time s, end_time s) = time_slot
           ∧ (day s ∉ days ∨ name cls ∉ colors).
Proof.
  unfold xlsx_row.
  assert (H : ∀ row : option (gmap nat (class * session)),
    foldl (fun row cls =>
             foldl (fun row session =>
                      cells ← row;
                      if bool_decide ((start_time session, end_time session) = time_slot)
                      then day_col ← (fun i => (i + 2)%nat) <$> days_index (day session);
                           if decide (name cls ∈ colors)
                           then Some (<[day_col := (cls, session)]> cells)
                           else None
                      else Some cells)
                   row (schedule cls)) row combo = None
    ↔ row = None
      ∨ ∃ cls s, cls ∈ combo ∧ s ∈ schedule cls
                 ∧ (start_time s, end_time s) = time_slot
                 ∧ (day s ∉ days ∨ name cls ∉ colors)).
  { induction combo as [|c combo IH]; intros row; simpl.
    - split; [by left|]. intros [?|(cls & s & Hc & _)]; [done|].
      by apply elem_of_nil in Hc.
    - rewrite IH, xlsx_sessions_None. split.
      + intros [[?|(s & ? & ? & ?)]|(cls & s & ? & ?)]; [by left| |]; right.
        * exists c, s. split; [by left|done].
        * exists cls, s. split; [by right|done].
      + intros [?|(cls & s & Hc & Hs & ? & ?)]; [by left; left|].
        apply elem_of_cons in Hc as [-> | Hc].
        * left. right. by exists s.
        * right. by exists cls, s. }
  rewrite H. split; [|by right]. by intros [?|?].
Qed.

(** Filling in the sheet raises, and no file is written, exactly when
    some combination has, in one of the time slots, a session on a day
    other than Monday to Friday or a session of a class whose name is not
    the name of one of the classes passed for the colours.  When the
    combinations are made of the classes passed and the time slots are
    theirs, this is the case exactly when a class of a downloaded
    schedule meets on a day other than Monday to Friday. *)
Theorem xlsx_raises_exactly_when (combos : list (list class))
    (time_slots : list (time * time)) (classes : list class) :
  (create_single_sheet_xlsx_timetables combos time_slots classes = None ↔
   ∃ combo cls s, combo ∈ combos ∧ cls ∈ combo ∧ s ∈ schedule cls
                  ∧ (start_time s, end_time s) ∈ time_slots
                  ∧ (day s ∉ days ∨ ¬ ∃ cls', cls' ∈ classes ∧ name cls' = name cls))
  ∧ (time_slots = get_unique_time_slots classes →
     (∀ combo cls, combo ∈ combos → cls ∈ combo → cls ∈ classes) →
     (create_single_sheet_xlsx_timetables combos time_slots classes = None ↔
      ∃ combo cls s, combo ∈ combos ∧ cls ∈ combo ∧ s ∈ schedule cls
                     ∧ day s ∉ days)).
Proof.
  assert (Hfail : create_single_sheet_xlsx_timetables combos time_slots classes = None ↔
    ∃ combo cls s, combo ∈ combos ∧ cls ∈ combo ∧ s ∈ schedule cls
                   ∧ (start_time s, end_time s) ∈ time_slots
                   ∧ (day s ∉ days ∨ ¬ ∃ cls', cls' ∈ classes ∧ name cls' = name cls)).
  { unfold create_single_sheet_xlsx_timetables.
    rewrite mapM_None, Exists_exists. split.
    - intros (combo & Hcombo & Hnone).
      apply mapM_None, Exists_exists in Hnone as (ts & Hts & Hnone).
      apply fmap_None, xlsx_row_None in Hnone as (cls & s & ? & ? & <- & Hwhy).
      exists combo, cls, s. split_and!; try done.
      by rewrite <- elem_of_class_colors.
    - intros (combo & cls & s & ? & ? & ? & Hts & Hwhy).
      exists combo. split; [done|].
      apply mapM_None, Exists_exists. exists (start_time s, end_time s).
      split; [done|]. apply fmap_None, xlsx_row_None. exists cls, s.
      split_and!; try done. by rewrite elem_of_class_colors. }
  split; [done|].
  intros -> Hin. rewrite Hfail. split.
  - intros (combo & cls & s & Hcombo & Hcls & Hs & _ & [Hday|Hname]).
    + by exists combo, cls, s.
    + destruct Hname. exists cls. split; [by eapply Hin|done].
  - intros (combo & cls & s & ? & ? & ? & ?). exists combo, cls, s.
    split_and!; try done; [|by left].
    apply elem_of_get_unique_time_slots. exists cls, s. eauto.
Qed.

(** A schedule with a class on Saturday cannot be downloaded. *)
Lemma xlsx_raises_exactly_when_witness :
  let lab := Class "CS103" "A" [Session "Saturday" (Time 9 0) (Time 12 0)] in
  create_single_sheet_xlsx_timetables
    [[Sample.M1; lab]] (get_unique_time_slots [Sample.M1; Sample.M3; lab])
    [Sample.M1; Sample.M3; lab] = None.
Proof.
  intros lab.
  apply (proj2 (xlsx_raises_exactly_when [[Sample.M1; lab]] _
                  [Sample.M1; Sample.M3; lab]) eq_refl).
  - intros combo cls ->%list_elem_of_singleton Hcls.
    apply elem_of_cons in Hcls as [-> | ->%list_elem_of_singleton];
      [by left | by right; right; left].
  - exists [Sample.M1; lab], lab, (Session "Saturday" (Time 9 0) (Time 12 0)).
    split_and!; [by left | by right; left | by left |].
    apply (bool_decide_unpack _). by vm_compute.
Defined.

(** The sheet of a combination with a class whose name is not the name
    of one of the classes passed is not written either, although it has
    no session on Saturday or Sunday; with the class among them it is. *)
Example xlsx_raises_on_unknown_name :
  let other := Class "CS102" "B" [Session "Monday" (Time 9 0) (Time 10 0)] in
  create_single_sheet_xlsx_timetables
    [[Sample.M1]] (get_unique_time_slots [other]) [other] = None
  ∧ create_single_sheet_xlsx_timetables
      [[Sample.M1]] (get_unique_time_slots [Sample.M1; other]) [Sample.M1; other]
    ≠ None.
Proof. intros other. split; [by vm_compute|]. by vm_compute. Qed.

End Sheet.

(** * Request headers *)

Module HeadersFacts.
Import Headers.

Section Strings.
Implicit Types (s a b : string) (c sep : ascii).

Lemma app_cons c a b : String c a +:+ b = String c (a +:+ b).
Proof. reflexivity. Qed.

Lemma app_nil_l b : EmptyString +:+ b = b.
Proof. reflexivity. Qed.

Lemma app_assoc a b s : (a +:+ b) +:+ s = a +:+ b +:+ s.
Proof. induction a as [|c a IH]; [done|]. by rewrite !app_cons, IH. Qed.

Lemma app_not_nil_r a b : b ≠ EmptyString → a +:+ b ≠ EmptyString.
Proof. by destruct a. Qed.

Lemma length_app a b :
  String.length (a +:+ b) = (String.length a + String.length b)%nat.
Proof. induction a as [|c a IH]; [done|]. rewrite app_cons. simpl. by rewrite IH. Qed.

(** ** [lstrip] and [rstrip] *)

Lemma lstrip_suffix s : ∃ t, s = t +:+ lstrip s.
Proof.
  induction s as [|c s [t IH]]; [by exists EmptyString|]. simpl.
  destruct (isspace c).
  - exists (String c t). by rewrite app_cons, <- IH.
  - by exists EmptyString.
Qed.

Lemma rstrip_prefix s : ∃ t, s = rstrip s +:+ t.
Proof.
  induction s as [|c s [t IH]]; [by exists EmptyString|]. simpl.
  destruct (rstrip s) as [|c' r].
  - destruct (isspace c).
    + by eexists.
    + exists s. done.
  - exists t. by rewrite app_cons, <- IH.
Qed.

Lemma lstrip_id s :
  lstrip s = s ↔ match s with
                 | EmptyString => True
                 | String c _ => isspace c = false
                 end.
Proof.
  destruct s as [|c s]; [done|]. simpl. destruct (isspace c) eqn:E; [|done].
  split; [|done]. intros H. exfalso.
  destruct (lstrip_suffix s) as [t Ht]. rewrite H in Ht.
  apply (f_equal String.length) in Ht.
  rewrite length_app in Ht. simpl in Ht. lia.
Qed.

Lemma lstrip_lstrip s : lstrip (lstrip s) = lstrip s.
Proof.
  induction s as [|c s IH]; [done|]. simpl.
  destruct (isspace c) eqn:E; [done|]. simpl. by rewrite E.
Qed.

Lemma rstrip_rstrip s : rstrip (rstrip s) = rstrip s.
Proof.
  induction s as [|c s IH]; [done|]. simpl.
  destruct (rstrip s) as [|c' r] eqn:Er.
  - destruct (isspace c) eqn:E; [done|]. simpl. by rewrite E.
  - change (rstrip (String c (String c' r))) with
      (match rstrip (String c' r) with
       | EmptyString => if isspace c then EmptyString else String c EmptyString
       | String c'' r' => String c (String c'' r')
       end).
    by rewrite IH.
Qed.

Lemma rstrip_cons_head c s :
  rstrip (String c s) = EmptyString ∨ ∃ r, rstrip (String c s) = String c r.
Proof.
  simpl. destruct (rstrip s); [destruct (isspace c)|]; eauto.
Qed.

(** [rstrip] keeps a text without leading white space such a text. *)
Lemma lstrip_rstrip s : lstrip s = s → lstrip (rstrip s) = rstrip s.
Proof.
  intros H. apply lstrip_id in H. destruct s as [|c s]; [done|].
  apply lstrip_id. destruct (rstrip_cons_head c s) as [->|[r ->]]; done.
Qed.

Lemma strip_strip s : strip (strip s) = strip s.
Proof.
  unfold strip. rewrite lstrip_rstrip by apply lstrip_lstrip.
  apply rstrip_rstrip.
Qed.

Lemma rstrip_app a b :
  rstrip b = b → b ≠ EmptyString → rstrip (a +:+ b) = a +:+ b.
Proof.
  intros Hb Hne. induction a as [|c a IH]; [done|].
  rewrite app_cons. simpl. rewrite IH.
  pose proof (app_not_nil_r a b Hne). by destruct (a +:+ b).
Qed.

Lemma rstrip_cons_nonspace c s :
  isspace c = false → rstrip s = s → rstrip (String c s) = String c s.
Proof. intros Hc Hs. simpl. rewrite Hs, Hc. by destruct s. Qed.

(** ** [contains], [split] and [split_once] *)

Lemma contains_app sep a b :
  contains sep (a +:+ b) = contains sep a || contains sep b.
Proof.
  induction a as [|c a IH]; [done|]. rewrite app_cons. simpl.
  by destruct (decide (c = sep)).
Qed.

Lemma contains_lstrip sep s : contains sep s = false → contains sep (lstrip s) = false.
Proof.
  intros H. destruct (lstrip_suffix s) as [t Ht]. rewrite Ht, contains_app in H.
  by apply orb_false_iff in H as [_ ?].
Qed.

Lemma contains_rstrip sep s : contains sep s = false → contains sep (rstrip s) = false.
Proof.
  intros H. destruct (rstrip_prefix s) as [t Ht]. rewrite Ht, contains_app in H.
  by apply orb_false_iff in H as [? _].
Qed.

Lemma contains_strip sep s : contains sep s = false → contains sep (strip s) = false.
Proof. intros. by apply contains_rstrip, contains_lstrip. Qed.

Lemma split_not_nil sep s : split sep s ≠ [].
Proof.
  induction s as [|c s IH]; [done|]. simpl.
  destruct (decide (c = sep)); [done|]. by destruct (split sep s).
Qed.

Lemma split_app sep a b :
  contains sep a = false →
  split sep (a +:+ String sep b) = a :: split sep b.
Proof.
  induction a as [|c a IH]; intros Ha.
  - rewrite app_nil_l. simpl. by rewrite decide_True.
  - rewrite app_cons. simpl in *.
    destruct (decide (c = sep)); [done|]. by rewrite IH.
Qed.

Lemma split_no_sep sep a : contains sep a = false → split sep a = [a].
Proof.
  induction a as [|c a IH]; intros Ha; [done|]. simpl in *.
  destruct (decide (c = sep)); [done|]. by rewrite IH.
Qed.

Lemma split_pieces sep s : Forall (fun piece => contains sep piece = false) (split sep s).
Proof.
  induction s as [|c s IH]; simpl; [by repeat constructor|].
  destruct (decide (c = sep)) as [|Hc]; [by constructor|].
  destruct (split sep s) as [|piece pieces]; [by repeat constructor; simpl; rewrite decide_False|].
  apply Forall_cons in IH as [? ?]. constructor; [|done].
  simpl. by rewrite decide_False.
Qed.

Lemma split_once_app sep a b :
  contains sep a = false → split_once sep (a +:+ String sep b) = Some (a, b).
Proof.
  induction a as [|c a IH]; intros Ha.
  - rewrite app_nil_l. simpl. by rewrite decide_True.
  - rewrite app_cons. simpl in *.
    destruct (decide (c = sep)); [done|]. by rewrite IH.
Qed.

Lemma split_once_Some sep s before after :
  split_once sep s = Some (before, after) →
  s = before +:+ String sep after ∧ contains sep before = false.
Proof.
  revert before. induction s as [|c s IH]; intros before; [done|]. simpl.
  destruct (decide (c = sep)) as [->|Hc].
  - by intros [= <- <-].
  - destruct (split_once sep s) as [[b' a']|]; [|done].
    intros [= <- <-]. destruct (IH b' eq_refl) as [-> Hb].
    split; [done|]. simpl. by rewrite decide_False.
Qed.

End Strings.
End HeadersFacts.

Section Cookies.
Import Headers HeadersFacts.
Implicit Types (d acc : list (string * string)) (n v k s : string).

Lemma strip_fixed s : strip s = s → lstrip s = s ∧ rstrip s = s.
Proof.
  intros H. split; rewrite <- H; unfold strip.
  - apply lstrip_rstrip, lstrip_lstrip.
  - apply rstrip_rstrip.
Qed.

(** ** The dictionary *)

Lemma dict_set_fresh k v d : k ∉ d.*1 → dict_set k v d = d ++ [(k, v)].
Proof.
  induction d as [|[k' v'] d IH]; [done|]. intros Hk.
  apply not_elem_of_cons in Hk as [Hne Hk].
  cbn [dict_set]. destruct (decide (k' = k)); [done|]. by rewrite IH.
Qed.

Lemma dict_set_keys k v d :
  (dict_set k v d).*1 = if decide (k ∈ d.*1) then d.*1 else d.*1 ++ [k].
Proof.
  induction d as [|[k' v'] d IH].
  - destruct (decide (k ∈ ([] : list (string * string)).*1)) as [H|]; [|done].
    by apply elem_of_nil in H.
  - cbn [dict_set]. rewrite !fmap_cons. cbn [fst].
    destruct (decide (k' = k)) as [->|Hne].
    + destruct (decide (k ∈ k :: d.*1)) as [|H]; [done|]. destruct H. by left.
    + rewrite fmap_cons, IH. cbn [fst].
      destruct (decide (k ∈ d.*1)) as [Hin|Hnin];
        destruct (decide (k ∈ k' :: d.*1)) as [Hin'|Hnin']; try done.
      * destruct Hnin'. by right.
      * by apply elem_of_cons in Hin' as [?|?].
Qed.

Lemma dict_set_NoDup k v d : NoDup d.*1 → NoDup (dict_set k v d).*1.
Proof.
  intros Hd. rewrite dict_set_keys. case_decide; [done|].
  apply NoDup_app. split_and!; [done| |apply NoDup_singleton].
  intros x Hx ->%list_elem_of_singleton. done.
Qed.

Lemma dict_set_Forall (P : string * string → Prop) k v d :
  P (k, v) → Forall P d → Forall P (dict_set k v d).
Proof.
  intros HP. induction 1 as [|[k' v'] d Hx Hd IH]; simpl; [by repeat constructor|].
  case_decide; by constructor.
Qed.

(** ** One cookie, written and read *)

Lemma cookie_text_facts n v :
  cookie_ok (n, v) →
  strip (n +:+ "=" +:+ v) = n +:+ "=" +:+ v
  ∧ contains ";" (n +:+ "=" +:+ v) = false
  ∧ split_once "=" (n +:+ "=" +:+ v) = Some (n, v)
  ∧ n +:+ "=" +:+ v ≠ EmptyString.
Proof.
  intros (Hn & Hv & Hn1 & Hn2 & Hv1). simpl in *.
  apply strip_fixed in Hn as [Hnl Hnr], Hv as [Hvl Hvr].
  change ("=" +:+ v) with (String "=" v).
  assert (Hr : rstrip (String "=" v) = String "=" v)
    by by apply rstrip_cons_nonspace.
  split_and!.
  - unfold strip.
    assert (lstrip (n +:+ String "=" v) = n +:+ String "=" v) as ->.
    { apply lstrip_id. apply lstrip_id in Hnl. by destruct n. }
    by apply rstrip_app.
  - rewrite contains_app, Hn1. simpl. exact Hv1.
  - by apply split_once_app.
  - by apply app_not_nil_r.
Qed.

Lemma add_cookie_written acc n v p :
  p = EmptyString ∨ p = " " →
  cookie_ok (n, v) → n ∉ acc.*1 →
  add_cookie acc (p +:+ n +:+ "=" +:+ v) = acc ++ [(n, v)].
Proof.
  intros Hp Hok Hfresh.
  destruct (cookie_text_facts n v Hok) as (Hstrip & _ & Honce & _).
  destruct Hok as (Hn & Hv & _). simpl in *.
  unfold add_cookie.
  assert (strip (p +:+ n +:+ "=" +:+ v) = n +:+ "=" +:+ v) as ->.
  { destruct Hp as [-> | ->]; [done|]. exact Hstrip. }
  rewrite Honce, Hn, Hv. by apply dict_set_fresh.
Qed.

Lemma cookie_string_cons n v d :
  d ≠ [] →
  cookie_string ((n, v) :: d)
  = (n +:+ "=" +:+ v) +:+ String ";" (" " +:+ cookie_string d).
Proof. unfold cookie_string. by destruct d. Qed.

(** Reading the pieces of a written dictionary adds its cookies in order. *)
Lemma read_written_cookies d acc p :
  p = EmptyString ∨ p = " " →
  d ≠ [] → Forall cookie_ok d → NoDup (acc.*1 ++ d.*1) →
  foldl add_cookie acc (split ";" (p +:+ cookie_string d)) = acc ++ d.
Proof.
  intros Hp Hne Hok. revert acc p Hp.
  induction Hok as [|[n v] d Hx Hd IH]; intros acc p Hp Hdup; [done|].
  assert (Hfresh : n ∉ acc.*1).
  { apply NoDup_app in Hdup as (_ & Hdisj & _). intros Hin.
    apply (Hdisj n Hin). by left. }
  destruct (cookie_text_facts n v Hx) as (_ & Hsemi & _ & _).
  assert (Hpsemi : contains ";" (p +:+ n +:+ "=" +:+ v) = false).
  { rewrite contains_app, Hsemi. by destruct Hp as [-> | ->]. }
  destruct d as [|y d].
  - change (cookie_string [(n, v)]) with (n +:+ "=" +:+ v).
    rewrite split_no_sep by done. simpl. by apply add_cookie_written.
  - rewrite cookie_string_cons by done.
    rewrite <- (app_assoc p (n +:+ "=" +:+ v)).
    rewrite split_app by done.
    cbn [foldl]. rewrite add_cookie_written by done.
    rewrite (IH ltac:(done) (acc ++ [(n, v)]) " ").
    + by rewrite <- (assoc_L (++)).
    + by right.
    + rewrite fmap_app, <- (assoc_L (++)). exact Hdup.
Qed.

Lemma cookie_string_not_nil d : Forall cookie_ok d → d ≠ [] → cookie_string d ≠ EmptyString.
Proof.
  intros Hok Hne. destruct Hok as [|[n v] d Hx Hd]; [done|].
  destruct (cookie_text_facts n v Hx) as (_ & _ & _ & Hnil).
  destruct d as [|y d]; [done|].
  rewrite cookie_string_cons by done. by destruct (n +:+ "=" +:+ v).
Qed.

Lemma cookie_string_stripped d : Forall cookie_ok d → strip (cookie_string d) = cookie_string d.
Proof.
  intros Hok. unfold strip.
  assert (lstrip (cookie_string d) = cookie_string d) as ->.
  { destruct Hok as [|[n v] d Hx Hd]; [done|].
    destruct (cookie_text_facts n v Hx) as (Hs & _ & _ & Hnil).
    apply strip_fixed in Hs as [Hl _]. apply lstrip_id in Hl. apply lstrip_id.
    destruct d as [|y d]; [done|]. rewrite cookie_string_cons by done.
    by destruct (n +:+ "=" +:+ v). }
  induction Hok as [|[n v] d Hx Hd IH]; [done|].
  destruct (cookie_text_facts n v Hx) as (Hs & _ & _ & _).
  apply strip_fixed in Hs as [_ Hr].
  destruct d as [|y d]; [done|]. rewrite cookie_string_cons by done.
  change (String ";" (" " +:+ cookie_string (y :: d)))
    with ("; " +:+ cookie_string (y :: d)).
  rewrite <- app_assoc. apply rstrip_app; [done|].
  by apply cookie_string_not_nil.
Qed.

Lemma parse_cookie_string d :
  NoDup d.*1 → Forall cookie_ok d → parse_cookies (cookie_string d) = d.
Proof.
  intros Hdup Hok. unfold parse_cookies. rewrite cookie_string_stripped by done.
  destruct d as [|x d]; [done|].
  by rewrite <- (app_nil_l (cookie_string (x :: d))),
             (read_written_cookies (x :: d) [] EmptyString) by (done || by left).
Qed.

End Cookies.

Section ParsedHeaders.
Import Headers HeadersFacts.
Implicit Types (d acc : list (string * string)) (s : string).

Lemma add_cookie_keeps acc piece :
  contains ";" piece = false →
  NoDup acc.*1 → Forall cookie_ok acc →
  NoDup (add_cookie acc piece).*1 ∧ Forall cookie_ok (add_cookie acc piece).
Proof.
  intros Hpiece Hdup Hok. unfold add_cookie.
  destruct (split_once "=" (strip piece)) as [[name value]|] eqn:E; [|done].
  apply split_once_Some in E as [E Hname].
  pose proof (contains_strip ";" piece Hpiece) as Hsemi.
  rewrite E, contains_app in Hsemi. apply orb_false_iff in Hsemi as [Hn Hv].
  simpl in Hv.
  split; [by apply dict_set_NoDup|]. apply dict_set_Forall; [|done].
  unfold cookie_ok. simpl.
  split_and!; auto using strip_strip, contains_strip.
Qed.

Lemma parse_cookies_keeps s :
  NoDup (parse_cookies s).*1 ∧ Forall cookie_ok (parse_cookies s).
Proof.
  unfold parse_cookies.
  pose proof (split_pieces ";" (strip s)) as Hpieces.
  assert (H : ∀ acc, NoDup acc.*1 → Forall cookie_ok acc →
            NoDup (foldl add_cookie acc (split ";" (strip s))).*1
            ∧ Forall cookie_ok (foldl add_cookie acc (split ";" (strip s)))).
  { induction Hpieces as [|piece pieces Hp Hps IH]; intros acc Hdup Hok; [done|].
    simpl. destruct (add_cookie_keeps acc piece Hp Hdup Hok). by apply IH. }
  apply H; [constructor | constructor].
Qed.

(** A dictionary of cookies whose names are distinct, with no white
    space around names and values, no [;] in them and no [=] in names, is
    read back unchanged, in the same order, from the cookie string that
    [format_for_banner_api] writes. *)
Theorem cookies_round_trip d :
  NoDup d.*1 → Forall cookie_ok d → parse_cookies (cookie_string d) = d.
Proof. apply parse_cookie_string. Qed.

Lemma cookies_round_trip_witness :
  parse_cookies "JSESSIONID=3CB2F72D; NLB=1116a3db; NSC_ESNS=14ca2989-05d6"
  = [("JSESSIONID", "3CB2F72D"); ("NLB", "1116a3db"); ("NSC_ESNS", "14ca2989-05d6")].
Proof.
  apply (cookies_round_trip
           [("JSESSIONID", "3CB2F72D"); ("NLB", "1116a3db");
            ("NSC_ESNS", "14ca2989-05d6")]).
  - apply (bool_decide_unpack _). by vm_compute.
  - repeat constructor.
Defined.

(** Whatever the text of the Cookie header, the cookies read from it have
    distinct names, no white space around names and values, no [;] in
    them and no [=] in the names; writing them as a cookie string and
    reading that string gives the same cookies again. *)
Theorem parsed_cookies_are_stable s :
  NoDup (parse_cookies s).*1
  ∧ Forall cookie_ok (parse_cookies s)
  ∧ parse_cookies (cookie_string (parse_cookies s)) = parse_cookies s.
Proof.
  destruct (parse_cookies_keeps s) as [Hdup Hok].
  split; [done|]. split; [done|]. by apply parse_cookie_string.
Qed.

(** [format_for_banner_api] returns credentials exactly when some cookie
    was read and the token is not blank.  The credentials then carry a
    cookie string from which the parsed cookies are read back, the same
    string and token under ["headers"], and a base URL exactly when a
    Host header was found; the only error that can accompany them is the
    missing Host header. *)
Theorem credentials_after_parsing
    (session_id_match cookie_match sync_token_match host_match : option string) :
  let data := parse_request_headers session_id_match cookie_match
                sync_token_match host_match in
  (format_for_banner_api data = None ↔
   from_option parse_cookies [] cookie_match = []
   ∨ sync_token_match = None
   ∨ strip <$> sync_token_match = Some EmptyString)
  ∧ (∀ cred, format_for_banner_api data = Some cred →
       parse_cookies (cred_cookies cred) = cookies data
       ∧ cred_headers cred = [("Cookie", Some (cred_cookies cred));
                              ("X-Synchronizer-Token", cred_sync_token cred)]
       ∧ cred_base_url cred = (fun h => "https://" +:+ strip h) <$> host_match
       ∧ (errors data = [] ∨ errors data = ["No Host header found"])
       ∧ (errors data = [] ↔ is_Some host_match)).
Proof.
  intros data. subst data.
  unfold format_for_banner_api, parse_request_headers. simpl.
  destruct cookie_match as [ch|]; simpl.
  2:{ split; [split; [by left | done]|]. done. }
  destruct (parse_cookies_keeps ch) as [Hdup Hok].
  destruct (parse_cookies ch) as [|c cs] eqn:Ec; simpl.
  { split; [split; [by left|done]|]. done. }
  destruct sync_token_match as [tok|]; simpl.
  2:{ split; [split; [by right; left|done]|]. done. }
  destruct (strip tok) as [|t0 t] eqn:Et; simpl.
  { split; [split; [by right; right|done]|]. done. }
  split.
  { split; [done|]. intros [?|[?|?]]; done. }
  intros cred [= <-]. simpl.
  split; [by apply parse_cookie_string|]. split; [done|].
  destruct host_match as [h|]; simpl.
  - split; [done|]. split; [by left|]. split; [by eexists | done].
  - split; [done|]. split; [by right|]. split; [done | by intros [? ?]].
Qed.

(** Headers without a Host line: credentials are produced, without a
    base URL. *)
Lemma credentials_after_parsing_witness :
  let data := parse_request_headers None (Some " a=1; b=2 ") (Some " tok ") None in
  ∃ cred, format_for_banner_api data = Some cred
          ∧ parse_cookies (cred_cookies cred) = [("a", "1"); ("b", "2")]
          ∧ cred_base_url cred = None
          ∧ errors data = ["No Host header found"].
Proof.
  intros data.
  destruct (format_for_banner_api data) as [cred|] eqn:E; [|by vm_compute in E].
  exists cred.
  destruct (proj2 (credentials_after_parsing None (Some " a=1; b=2 ") (Some " tok ") None)
              cred E) as (Hc & _ & Hb & _ & _).
  split; [done|]. split; [exact Hc|]. split; [exact Hb|]. reflexivity.
Defined.

End ParsedHeaders.

(** * Times as text *)

Section TimeText.
Implicit Types (s : string) (t : time).

Lemma digit_lt c x : digit c = Some x → (x < 10)%nat.
Proof.
  unfold digit. destruct (_ && _) eqn:E; [|done]. intros [= <-].
  apply andb_true_iff in E as [?%Nat.leb_le ?%Nat.leb_le]. lia.
Qed.

Lemma elem_of_two_digits ok s n rest :
  (n, rest) ∈ two_digits ok s →
  ∃ x y, (x < 10)%nat ∧ (y < 10)%nat ∧ ok x y = true ∧ n = (10 * x + y)%nat.
Proof.
  unfold two_digits. destruct s as [|a [|b r]]; [by rewrite elem_of_nil..|].
  destruct (digit a) as [x|] eqn:Ea; [|by rewrite elem_of_nil].
  destruct (digit b) as [y|] eqn:Eb; [|by rewrite elem_of_nil].
  destruct (ok x y) eqn:Eok; [|by rewrite elem_of_nil].
  intros [= -> ->]%list_elem_of_singleton.
  exists x, y. split_and!; eauto using digit_lt.
Qed.

Lemma elem_of_one_digit s n rest : (n, rest) ∈ one_digit s → (n < 10)%nat.
Proof.
  unfold one_digit. destruct s as [|a r]; [by rewrite elem_of_nil|].
  destruct (digit a) as [x|] eqn:Ea; [|by rewrite elem_of_nil].
  intros [= -> ->]%list_elem_of_singleton. eauto using digit_lt.
Qed.

Lemma hour_matches_lt s n rest : (n, rest) ∈ hour_matches s → (n < 24)%nat.
Proof.
  unfold hour_matches. rewrite !elem_of_app.
  intros [H|[H|H]].
  - apply elem_of_two_digits in H as (x & y & ? & ? & Hok & ->).
    apply andb_true_iff in Hok as [?%Nat.eqb_eq ?%Nat.leb_le]. lia.
  - apply elem_of_two_digits in H as (x & y & ? & ? & Hok%Nat.leb_le & ->). lia.
  - apply elem_of_one_digit in H. lia.
Qed.

Lemma minute_matches_lt s n rest : (n, rest) ∈ minute_matches s → (n < 60)%nat.
Proof.
  unfold minute_matches. rewrite !elem_of_app.
  intros [H|H].
  - apply elem_of_two_digits in H as (x & y & ? & ? & Hok%Nat.leb_le & ->). lia.
  - apply elem_of_one_digit in H. lia.
Qed.

Lemma parse_time_Some s t :
  parse_time s = Some t → (hour t < 24)%nat ∧ (minute t < 60)%nat.
Proof.
  unfold parse_time.
  destruct (_ ≫= _) as [|[[h m] rest] l] eqn:E; [done|].
  case_decide; [|done]. intros [= <-]. simpl.
  assert (Hin : (h, m, rest) ∈ (h, m, rest) :: l) by by left.
  rewrite <- E in Hin.
  apply list_elem_of_bind in Hin as ([h' r1] & Hin & Hh).
  apply list_elem_of_bind in Hin as (r2 & Hin & Hc).
  apply list_elem_of_bind in Hin as ([m' r3] & Hin & Hm).
  apply list_elem_of_singleton in Hin as [= -> -> ->]. simpl in *.
  eauto using hour_matches_lt, minute_matches_lt.
Qed.

Lemma parse_strftime_all :
  forallb (fun h =>
             forallb (fun m =>
                        bool_decide (parse_time (strftime (Time h m)) = Some (Time h m)))
                     (seq 0 60))
          (seq 0 24) = true.
Proof. by vm_compute. Qed.

Lemma parse_strftime t :
  (hour t < 24)%nat → (minute t < 60)%nat → parse_time (strftime t) = Some t.
Proof.
  intros Hh Hm. destruct t as [h m]. simpl in *.
  pose proof parse_strftime_all as Hall.
  rewrite forallb_forall in Hall. specialize (Hall h).
  rewrite forallb_forall in Hall.
  eapply bool_decide_eq_true_1, Hall; apply in_seq; lia.
Qed.

(** The text [strftime] writes for a time of day is read back by
    [parse_time] as that time, and so is the text made by
    [parse_banner_response] from the four digits of that time. *)
Theorem time_text_round_trip t :
  (hour t < 24)%nat → (minute t < 60)%nat →
  parse_time (strftime t) = Some t
  ∧ parse_time (military_to_text (two_digit_text (hour t) +:+ two_digit_text (minute t)))
    = Some t.
Proof.
  intros Hh Hm. split; [by apply parse_strftime|].
  by rewrite <- (parse_strftime t Hh Hm).
Qed.

Lemma time_text_round_trip_witness :
  parse_time "09:30" = Some (Time 9 30)
  ∧ parse_time (military_to_text "0930") = Some (Time 9 30).
Proof.
  apply (time_text_round_trip (Time 9 30)); simpl; lia.
Defined.

(** A text that [parse_time] accepts denotes a time of day, hour below 24
    and minute below 60, and [parse_time] reads the same time from its
    two-digit form. *)
Theorem parsed_time_is_a_time_of_day s t :
  parse_time s = Some t →
  (hour t < 24)%nat ∧ (minute t < 60)%nat ∧ parse_time (strftime t) = Some t.
Proof.
  intros [Hh Hm]%parse_time_Some. split; [done|]. split; [done|].
  by apply parse_strftime.
Qed.

Lemma parsed_time_is_a_time_of_day_witness :
  (8 < 24)%nat ∧ (5 < 60)%nat ∧ parse_time "08:05" = Some (Time 8 5).
Proof.
  apply (parsed_time_is_a_time_of_day "8:5" (Time 8 5)). reflexivity.
Defined.

End TimeText.

(** * Parsing the stored classes *)

Section ParsedClasses.

Lemma parse_session_Some s p :
  parse_session s = Some p →
  day p = stored_day s
  ∧ parse_time (stored_start_time s) = Some (start_time p)
  ∧ parse_time (stored_end_time s) = Some (end_time p).
Proof.
  unfold parse_session.
  destruct (parse_time (stored_start_time s)) as [t1|]; [|done].
  destruct (parse_time (stored_end_time s)) as [t2|]; [|done].
  by intros [= <-].
Qed.

(** The classes are parsed exactly when every time of every session is a
    text that [parse_time] accepts; one other text makes the run fail.
    The parsed classes are the stored ones in the same order, with the
    same names, groups and days, session by session, and every parsed
    time is a time of day. *)
Theorem parse_classes_keeps_shape (classes : list stored_class) :
  (is_Some (parse_classes classes) ↔
   ∀ cls s, cls ∈ classes → s ∈ stored_schedule cls →
            is_Some (parse_time (stored_start_time s))
            ∧ is_Some (parse_time (stored_end_time s)))
  ∧ (∀ parsed, parse_classes classes = Some parsed →
       Forall2 (fun cls p =>
                  name p = stored_name cls ∧ group p = stored_group cls
                  ∧ Forall2 (fun s ps =>
                               day ps = stored_day s
                               ∧ parse_time (stored_start_time s) = Some (start_time ps)
                               ∧ parse_time (stored_end_time s) = Some (end_time ps)
                               ∧ (hour (start_time ps) < 24)%nat
                               ∧ (minute (start_time ps) < 60)%nat
                               ∧ (hour (end_time ps) < 24)%nat
                               ∧ (minute (end_time ps) < 60)%nat)
                            (stored_schedule cls) (schedule p))
               classes parsed).
Proof.
  split.
  - unfold parse_classes. rewrite mapM_is_Some, Forall_forall. split.
    + intros H cls s Hcls Hs. specialize (H cls Hcls). simpl in H.
      destruct (mapM parse_session (stored_schedule cls)) as [l|] eqn:E;
        [|by destruct H].
      apply mapM_Some_1 in E.
      apply list_elem_of_lookup in Hs as [i Hi].
      destruct (Forall2_lookup_l _ _ _ _ _ E Hi) as (p & _ & Hp).
      apply parse_session_Some in Hp as (_ & -> & ->). split; by eexists.
    + intros H cls Hcls. simpl.
      assert (is_Some (mapM parse_session (stored_schedule cls))) as [l ->];
        [|by eexists].
      apply mapM_is_Some, Forall_forall. intros s Hs.
      destruct (H cls s Hcls Hs) as [[t1 H1] [t2 H2]].
      unfold compose, parse_session. rewrite H1, H2. by eexists.
  - intros parsed Hp. apply mapM_Some_1 in Hp.
    eapply Forall2_impl; [exact Hp|]. intros cls p Hcls. simpl in Hcls.
    destruct (mapM parse_session (stored_schedule cls)) as [l|] eqn:E; [|done].
    injection Hcls as <-. simpl. split; [done|]. split; [done|].
    apply mapM_Some_1 in E. eapply Forall2_impl; [exact E|].
    intros s ps (Hd & H1 & H2)%parse_session_Some.
    destruct (parse_time_Some _ _ H1), (parse_time_Some _ _ H2). done.
Qed.

(** A time written as 24:00 is not accepted. *)
Lemma parse_classes_keeps_shape_witness :
  parse_classes
    [ StoredClass "Cs101" "A" [StoredSession "Monday" "09:00" "10:00"];
      StoredClass "Cs102" "A" [StoredSession "Friday" "22:00" "24:00"] ] = None.
Proof.
  apply eq_None_not_Some. intros Hsome.
  pose proof (proj1 (proj1 (parse_classes_keeps_shape _)) Hsome) as Hall.
  clear Hsome. rename Hall into Hsome.
  destruct (Hsome (StoredClass "Cs102" "A" [StoredSession "Friday" "22:00" "24:00"])
              (StoredSession "Friday" "22:00" "24:00")) as [_ [t Ht]];
    [by right; left | by left | vm_compute in Ht; discriminate Ht].
Defined.

Lemma parse_session_manual d t1 t2 :
  (hour t1 < 24)%nat → (minute t1 < 60)%nat →
  (hour t2 < 24)%nat → (minute t2 < 60)%nat →
  parse_session {| stored_day := d; stored_start_time := strftime t1;
                   stored_end_time := strftime t2 |}
  = Some {| day := d; start_time := t1; end_time := t2 |}.
Proof.
  intros. unfold parse_session.
  cbn [stored_day stored_start_time stored_end_time].
  by rewrite !parse_strftime by done.
Qed.

Lemma mapM_cons_Some {A B} (f : A → option B) x l y k :
  f x = Some y → mapM f l = Some k → mapM f (x :: l) = Some (y :: k).
Proof. intros Hx Hl. apply mapM_Some. constructor; [done|]. by apply mapM_Some. Qed.

Lemma parse_manual_schedule (schedule_entries : list (string * time * time)) :
  Forall (fun '(_, start_time, end_time) =>
            (hour start_time < 24)%nat ∧ (minute start_time < 60)%nat
            ∧ (hour end_time < 24)%nat ∧ (minute end_time < 60)%nat)
         schedule_entries →
  mapM parse_session (manual_schedule schedule_entries)
  = Some (map (fun '(d, start_time, end_time) =>
                 {| day := d; start_time := start_time; end_time := end_time |})
              schedule_entries).
Proof.
  induction 1 as [|[[d t1] t2] l (? & ? & ? & ?) Hl IH]; [done|].
  unfold manual_schedule. cbn [map]. apply mapM_cons_Some; [|exact IH].
  by apply parse_session_manual.
Qed.

(** The schedule stored by the manual entry form for rows with times of
    day is parsed back to these rows: same days, same times. *)
Theorem manual_schedule_parses_back (schedule_entries : list (string * time * time)) :
  Forall (fun '(_, start_time, end_time) =>
            (hour start_time < 24)%nat ∧ (minute start_time < 60)%nat
            ∧ (hour end_time < 24)%nat ∧ (minute end_time < 60)%nat)
         schedule_entries →
  ∀ class_name group_section,
    parse_classes [ {| stored_name := class_name; stored_group := group_section;
                       stored_schedule := manual_schedule schedule_entries |} ]
    = Some [ {| name := class_name; group := group_section;
                schedule := map (fun '(d, start_time, end_time) =>
                                   {| day := d; start_time := start_time;
                                      end_time := end_time |})
                                schedule_entries |} ].
Proof.
  intros Hok class_name group_section. unfold parse_classes.
  apply mapM_cons_Some; [|done].
  cbn [stored_schedule stored_name stored_group].
  by rewrite parse_manual_schedule.
Qed.

Lemma manual_schedule_parses_back_witness :
  parse_classes
    [ StoredClass "Cs101" "A" (manual_schedule [("Monday", Time 9 0, Time 10 30)]) ]
  = Some [ Class "Cs101" "A" [Session "Monday" (Time 9 0) (Time 10 30)] ].
Proof.
  apply (manual_schedule_parses_back [("Monday", Time 9 0, Time 10 30)]).
  constructor; [|constructor]. simpl. lia.
Defined.

End ParsedClasses.
